(** * NFL defense statistics pipeline: normalisation and composite scoring

    A shallow embedding of the server route of the repository
    ([GET], [extractTeamsFromStandings], [computeEfficiencyRating],
    [fetchTeamDetailedStats]) together with the properties its
    specification states about it, followed by the client side: the
    slice and its thunk, the selectors, the radar comparison of the
    chart, and the scoreboard fallback of the service.

    Conventions of the embedding.

    - [number].  The data model of the specification restricts every
      numeric field of a record to a finite real; such numbers are
      modelled as exact rationals ([Q]), compared with [==] where the
      source compares with [===].  The only place of the route where a
      value that is not a number can arise is [parseFloat]; its result is
      an [option Q] whose [None] stands for [NaN].  Rounding to a
      double and overflow are outside the model; a figure the source
      rounds to one decimal is therefore described by [roundedToTenth],
      which leaves open which way a value half-way between two tenths
      goes.  No division by zero is
      ever evaluated: the source divides only under the guards
      [gamesPlayed > 0] and [mm.max !== mm.min], and so does the model.
    - Upstream documents are records that follow the interfaces the
      source declares; a field is optional exactly where the source
      tolerates its absence ([?.], [??], [|| []], [Array.isArray]).
    - Objects that the source mutates in place ([base], the records
      handed to [computeEfficiencyRating]) are passed and returned
      explicitly.
    - [fetch], [res.json()] and [try]/[catch] are modelled by a small
      monad [Async] that reads the upstream, may throw, and records the
      URLs requested.  The caching options given to [fetch] are not
      part of the model.
    - The route is given a second time as it runs ([GET_run]): the
      per-team fetches are tasks whose steps are taken in any order, the
      lines of [console.error] are kept, and the body of the reply is
      the JSON text of the envelope.  Every run gives the reply of
      [GET]. *)

From Stdlib Require Import QArith Qround Qminmax ZArith List String Ascii Bool Lia Lqa.
From Stdlib Require Import DecimalString Permutation Sorted.
Import ListNotations.

Local Open Scope Q_scope.

(** ** Numbers *)

Definition number := Q.

(** Truthiness of a number: every number but zero (and [NaN]). *)
Definition truthy (x : number) : bool := negb (Qeq_bool x 0).

(** [a || b] where [b] may be [NaN]. *)
Definition or_nan (a : number) (b : option number) : option number :=
  if truthy a then Some a else b.

(** [x || d] where [x] may be [NaN] and [d] is a number. *)
Definition or_default (x : option number) (d : number) : number :=
  match x with
  | Some q => if truthy q then q else d
  | None => d
  end.

(** [a || d] on numbers. *)
Definition or_number (a d : number) : number :=
  if truthy a then a else d.

(** [a > b]. *)
Definition gt (a b : number) : bool := negb (Qle_bool a b).

(** [Math.round]: the nearest integer, ties towards plus infinity. *)
Definition Math_round (x : number) : number := inject_Z (Qfloor (x + (1 # 2))).

(** The idiom [Math.round(x * 10) / 10] of the source. *)
Definition round1 (x : number) : number := Math_round (x * 10) / 10.

(** [Math.min(x, ...xs)] and [Math.max(x, ...xs)] of a non-empty spread. *)
Definition Math_min (x : number) (xs : list number) : number := fold_left Qmin xs x.
Definition Math_max (x : number) (xs : list number) : number := fold_left Qmax xs x.

(** ** The record of one team *)

Record TeamDefenseStats := mkTeamDefenseStats {
  team : string;
  fullName : string;
  logo : string;
  pointsAllowed : number;
  yardsAllowed : number;
  passYardsAllowed : number;
  rushYardsAllowed : number;
  sacks : number;
  interceptions : number;
  fumbles : number;
  dvoa : number
}.

(** The assignment [t.dvoa = v]. *)
Definition set_dvoa (t : TeamDefenseStats) (v : number) : TeamDefenseStats :=
  {| team := team t; fullName := fullName t; logo := logo t;
     pointsAllowed := pointsAllowed t; yardsAllowed := yardsAllowed t;
     passYardsAllowed := passYardsAllowed t; rushYardsAllowed := rushYardsAllowed t;
     sacks := sacks t; interceptions := interceptions t; fumbles := fumbles t;
     dvoa := v |}.

(** ** The composite scorer *)

Record MinMax := mkMinMax { mm_min : number; mm_max : number }.

(** [minMax(vals(fn))] for the non-empty array [t0 :: rest]. *)
Definition minMax (fn : TeamDefenseStats -> number)
    (t0 : TeamDefenseStats) (rest : list TeamDefenseStats) : MinMax :=
  {| mm_min := Math_min (fn t0) (map fn rest);
     mm_max := Math_max (fn t0) (map fn rest) |}.

Definition norm (value : number) (mm : MinMax) : number :=
  if Qeq_bool (mm_max mm) (mm_min mm) then 1 # 2
  else (value - mm_min mm) / (mm_max mm - mm_min mm).

(** The body of the loop of [computeEfficiencyRating]. *)
Definition score (pts yds sck int fum : MinMax) (t : TeamDefenseStats) : number :=
  (1 - norm (pointsAllowed t) pts) * 30 +
  (1 - norm (yardsAllowed t) yds) * 25 +
  norm (sacks t) sck * 20 +
  norm (interceptions t) int * 15 +
  norm (fumbles t) fum * 10.

(** [computeEfficiencyRating(teams)]; the result is the array after the
    call. *)
Definition computeEfficiencyRating (teams : list TeamDefenseStats)
    : list TeamDefenseStats :=
  match teams with
  | [] => []
  | t0 :: rest =>
      let pts := minMax pointsAllowed t0 rest in
      let yds := minMax yardsAllowed t0 rest in
      let sck := minMax sacks t0 rest in
      let int := minMax interceptions t0 rest in
      let fum := minMax fumbles t0 rest in
      map (fun t => set_dvoa t (round1 (score pts yds sck int fum t))) teams
  end.

(** ** The five weighted inputs of the scorer

    The vocabulary in which the properties of the scorer are stated: each
    term of [score] is the contribution of one metric. *)

Inductive Metric := PointsAllowed | YardsAllowed | Sacks | Interceptions | Fumbles.

Definition metric_value (m : Metric) : TeamDefenseStats -> number :=
  match m with
  | PointsAllowed => pointsAllowed
  | YardsAllowed => yardsAllowed
  | Sacks => sacks
  | Interceptions => interceptions
  | Fumbles => fumbles
  end.

Definition weight (m : Metric) : number :=
  match m with
  | PointsAllowed => 30
  | YardsAllowed => 25
  | Sacks => 20
  | Interceptions => 15
  | Fumbles => 10
  end.

(** The "allowed" metrics enter the score through [1 - norm]. *)
Definition lower_is_better (m : Metric) : bool :=
  match m with
  | PointsAllowed | YardsAllowed => true
  | _ => false
  end.

(** The term of [score] that belongs to metric [m], for the batch
    [t0 :: rest]. *)
Definition contribution (m : Metric) (t0 : TeamDefenseStats)
    (rest : list TeamDefenseStats) (t : TeamDefenseStats) : number :=
  let n := norm (metric_value m t) (minMax (metric_value m) t0 rest) in
  (if lower_is_better m then 1 - n else n) * weight m.

(** [t] is at least as good as every team of [teams] on every metric. *)
Definition best_in_all (t : TeamDefenseStats) (teams : list TeamDefenseStats) : Prop :=
  forall m u, In u teams ->
    if lower_is_better m then metric_value m t <= metric_value m u
    else metric_value m u <= metric_value m t.

(** The two records agree on every field but [dvoa]. *)
Definition same_except_dvoa (t r : TeamDefenseStats) : Prop :=
  team r = team t /\ fullName r = fullName t /\ logo r = logo t /\
  pointsAllowed r = pointsAllowed t /\ yardsAllowed r = yardsAllowed t /\
  passYardsAllowed r = passYardsAllowed t /\
  rushYardsAllowed r = rushYardsAllowed t /\
  sacks r = sacks t /\ interceptions r = interceptions t /\
  fumbles r = fumbles t.

(** ** Upstream documents *)

Local Open Scope string_scope.

(** One element of [entry.stats] of a standings entry. *)
Record ESPNStandingsStat := mkStandingsStat {
  stat_name : string;
  stat_displayValue : string;
  stat_value : number;
  stat_abbreviation : option string;
  stat_type : option string
}.

Record ESPNLogo := mkLogo { href : string }.

Record ESPNTeam := mkTeam {
  team_id : string;
  team_abbreviation : string;
  team_displayName : string;
  team_logos : option (list ESPNLogo)
}.

(** [entry.stats] may be absent: the source reads [entry.stats || []]. *)
Record ESPNStandingsEntry := mkEntry {
  entry_team : ESPNTeam;
  entry_stats : option (list ESPNStandingsStat)
}.

Record ESPNStandings := mkStandings { entries : list ESPNStandingsEntry }.

Record ESPNConference := mkConference { standings : option ESPNStandings }.

Record StandingsData := mkStandingsData { children : option (list ESPNConference) }.

(** The statistics document of one team.  A field read through [?.] or
    [??] in the source is optional here. *)
Record ESPNStatEntry := mkStatEntry {
  se_name : option string;
  se_value : option number
}.

Record ESPNStatCategory := mkStatCategory {
  cat_name : option string;
  cat_stats : option (list ESPNStatEntry)
}.

(** [results.stats]: an array of categories, an object with (or without) an
    array [categories], or nothing of the kind. *)
Inductive StatsField :=
| StatsArray (cats : list ESPNStatCategory)
| StatsObject (categories : option (list ESPNStatCategory))
| StatsAbsent.

(** [opponent] is [Some] exactly when [Array.isArray(results.opponent)]. *)
Record StatGroups := mkStatGroups {
  opponent : option (list ESPNStatCategory);
  stats : StatsField
}.

(** [data.results || data]: the groups are under [results] when it is
    there, at the top of the document otherwise. *)
Record StatisticsData := mkStatisticsData {
  results : option StatGroups;
  top : StatGroups
}.

Inductive Document :=
| StandingsDocument (d : StandingsData)
| StatisticsDocument (d : StatisticsData).

(** A document read at the other shape has none of the fields looked for. *)
Definition asStandings (d : Document) : StandingsData :=
  match d with
  | StandingsDocument s => s
  | StatisticsDocument _ => {| children := None |}
  end.

Definition asStatistics (d : Document) : StatisticsData :=
  match d with
  | StatisticsDocument s => s
  | StandingsDocument _ =>
      {| results := None; top := {| opponent := None; stats := StatsAbsent |} |}
  end.

(** ** Strings *)

(** [s || d] on an optional string: the empty string is falsy. *)
Definition or_string (s : option string) (d : string) : string :=
  match s with
  | Some x => if String.eqb x "" then d else x
  | None => d
  end.

Definition lower_ascii (c : ascii) : ascii :=
  let n := nat_of_ascii c in
  if (65 <=? n)%nat && (n <=? 90)%nat then ascii_of_nat (n + 32) else c.

(** [s.toLowerCase()] on the ASCII letters. *)
Fixpoint toLowerCase (s : string) : string :=
  match s with
  | EmptyString => EmptyString
  | String c r => String (lower_ascii c) (toLowerCase r)
  end.

(** [x === name] where [x] may be [undefined]. *)
Definition opt_eqb (x : option string) (name : string) : bool :=
  match x with
  | Some s => String.eqb s name
  | None => false
  end.

(** ** Schema extractor: standings *)

(** An element of the array built by [extractTeamsFromStandings]. *)
Record StandingsTeam := mkStandingsTeam {
  st_id : string;
  st_abbr : string;
  st_fullName : string;
  st_logo : string;
  st_pointsAllowed : number;
  st_gamesPlayed : number
}.

Section Extractor.

(** [parseFloat]: [None] is [NaN]. *)
Variable parseFloat : string -> option number.

(** The predicate given to [stats.find] in [getStat]. *)
Definition stat_matches (name : string) (s : ESPNStandingsStat) : bool :=
  String.eqb (stat_name s) name
  || opt_eqb (stat_abbreviation s) name
  || opt_eqb (stat_type s) name.

(** [stat.value || parseFloat(stat.displayValue) || 0]. *)
Definition stat_number (s : ESPNStandingsStat) : number :=
  or_default (or_nan (stat_value s) (parseFloat (stat_displayValue s))) 0.

(** The closure [getStat] of [extractTeamsFromStandings], with the array
    [stats] it captures. *)
Fixpoint getStat (stats : list ESPNStandingsStat) (names : list string) : number :=
  match names with
  | [] => 0
  | name :: rest =>
      match find (stat_matches name) stats with
      | Some stat => stat_number stat
      | None => getStat stats rest
      end
  end.

(** The body of the inner loop: the object pushed for one entry. *)
Definition teamOfEntry (entry : ESPNStandingsEntry) : StandingsTeam :=
  let team := entry_team entry in
  let stats := match entry_stats entry with Some l => l | None => [] end in
  let wins := getStat stats ["wins"; "W"] in
  let losses := getStat stats ["losses"; "L"] in
  let gamesPlayed := or_number (wins + losses) 17 in
  let pointsAllowed := getStat stats ["pointsAllowed"; "pointsAgainst"; "PA"] in
  {| st_id := team_id team;
     st_abbr := team_abbreviation team;
     st_fullName := team_displayName team;
     st_logo := or_string (match team_logos team with
                           | Some (l :: _) => Some (href l)
                           | _ => None
                           end) "";
     st_pointsAllowed := pointsAllowed;
     st_gamesPlayed := gamesPlayed |}.

Definition extractTeamsFromStandings (data : StandingsData) : list StandingsTeam :=
  match children data with
  | None => []
  | Some conferences =>
      flat_map (fun conference =>
                  match standings conference with
                  | None => []
                  | Some s => map teamOfEntry (entries s)
                  end) conferences
  end.

End Extractor.

(** ** Effects: fetch, exceptions, the log of requests *)

Record Response := mkResponse {
  ok : bool;
  (** the document [res.json()] resolves to; [None] when it rejects *)
  body : option Document
}.

(** What [fetch(url)] does: it rejects, or resolves to a response. *)
Inductive FetchOutcome :=
| NetworkFailure
| Responds (r : Response).

Definition Upstream := string -> FetchOutcome.

Inductive Completion (A : Type) :=
| Normal (a : A)
| Thrown.

Arguments Normal {A} a.
Arguments Thrown {A}.

(** A computation reads the upstream and extends the list of the URLs
    requested so far. *)
Definition Async (A : Type) : Type :=
  Upstream -> list string -> Completion A * list string.

Definition ret {A} (a : A) : Async A := fun _ log => (Normal a, log).

Definition bind {A B} (m : Async A) (k : A -> Async B) : Async B :=
  fun up log =>
    match m up log with
    | (Normal a, log') => k a up log'
    | (Thrown, log') => (Thrown, log')
    end.

Definition throw {A} : Async A := fun _ log => (Thrown, log).

(** [try { m } catch { handler }]. *)
Definition try_catch {A} (m handler : Async A) : Async A :=
  fun up log =>
    match m up log with
    | (Normal a, log') => (Normal a, log')
    | (Thrown, log') => handler up log'
    end.

Declare Scope async_scope.
Delimit Scope async_scope with async.
Notation "x <- m ;; k" := (bind m (fun x => k))
  (at level 61, m at next level, right associativity) : async_scope.
Local Open Scope async_scope.

Definition fetch (url : string) : Async Response :=
  fun up log =>
    match up url with
    | NetworkFailure => (Thrown, (log ++ [url])%list)
    | Responds r => (Normal r, (log ++ [url])%list)
    end.

(** [res.json()]. *)
Definition json (res : Response) : Async Document :=
  match body res with
  | Some d => ret d
  | None => throw
  end.

(** [Promise.all]: every computation of the array is started, in order;
    the result is the array of their results, or a rejection if some
    computation rejects. *)
Fixpoint Promise_all {A} (ms : list (Async A)) : Async (list A) :=
  match ms with
  | [] => ret []
  | m :: rest =>
      fun up log =>
        let (c, log1) := m up log in
        let (cs, log2) := Promise_all rest up log1 in
        (match c, cs with
         | Normal a, Normal l => Normal (a :: l)
         | _, _ => Thrown
         end, log2)
  end.

(** ** Stat normalizer: the statistics of one team *)

(** [Math.round((total / gamesPlayed) * 10) / 10] under the guard
    [gamesPlayed > 0], and [0] otherwise. *)
Definition perGame (total gamesPlayed : number) : number :=
  if gt gamesPlayed 0 then round1 (total / gamesPlayed) else 0.

(** [x?.toLowerCase() === name.toLowerCase()]. *)
Definition name_is (x : option string) (name : string) : bool :=
  match x with
  | Some s => String.eqb (toLowerCase s) (toLowerCase name)
  | None => false
  end.

Definition findStat (categories : list ESPNStatCategory)
    (catName statName : string) : number :=
  match find (fun c => name_is (cat_name c) catName) categories with
  | None => 0
  | Some cat =>
      match cat_stats cat with
      | None => 0
      | Some l =>
          match find (fun s => name_is (se_name s) statName) l with
          | Some stat => match se_value stat with Some v => v | None => 0 end
          | None => 0
          end
      end
  end.

(** The three assignments under [opponentCategories.length > 0]. *)
Definition set_yards (b : TeamDefenseStats) (y p r : number) : TeamDefenseStats :=
  {| team := team b; fullName := fullName b; logo := logo b;
     pointsAllowed := pointsAllowed b; yardsAllowed := y;
     passYardsAllowed := p; rushYardsAllowed := r;
     sacks := sacks b; interceptions := interceptions b; fumbles := fumbles b;
     dvoa := dvoa b |}.

(** The three assignments under [teamCategories.length > 0]. *)
Definition set_takeaways (b : TeamDefenseStats) (s i f : number) : TeamDefenseStats :=
  {| team := team b; fullName := fullName b; logo := logo b;
     pointsAllowed := pointsAllowed b; yardsAllowed := yardsAllowed b;
     passYardsAllowed := passYardsAllowed b; rushYardsAllowed := rushYardsAllowed b;
     sacks := s; interceptions := i; fumbles := f;
     dvoa := dvoa b |}.

(** The object [base] as it is first built. *)
Definition baseRecord (t : StandingsTeam) : TeamDefenseStats :=
  {| team := st_abbr t;
     fullName := st_fullName t;
     logo := st_logo t;
     pointsAllowed := perGame (st_pointsAllowed t) (st_gamesPlayed t);
     yardsAllowed := 0;
     passYardsAllowed := 0;
     rushYardsAllowed := 0;
     sacks := 0;
     interceptions := 0;
     fumbles := 0;
     dvoa := 0 |}.

Definition statisticsUrl (id : string) : string :=
  "https://site.api.espn.com/apis/site/v2/sports/football/nfl/teams/"
    ++ id ++ "/statistics?season=2024".

(** The part of [fetchTeamDetailedStats] after [res.json()]: [base] with
    the fields the document supplies. *)
Definition mergeStatistics (t : StandingsTeam) (base : TeamDefenseStats)
    (data : StatisticsData) : TeamDefenseStats :=
  let results := match results data with Some r => r | None => top data end in
  let opponentCategories :=
    match opponent results with Some l => l | None => [] end in
  let base1 :=
    if (0 <? List.length opponentCategories)%nat then
      let totalYards := findStat opponentCategories "rushing" "totalYards" in
      let passYards := findStat opponentCategories "passing" "netPassingYards" in
      let rushYards := findStat opponentCategories "rushing" "rushingYards" in
      set_yards base
        (perGame totalYards (st_gamesPlayed t))
        (perGame passYards (st_gamesPlayed t))
        (perGame rushYards (st_gamesPlayed t))
    else base in
  let teamCategories :=
    match stats results with
    | StatsArray l => l
    | StatsObject (Some l) => l
    | _ => []
    end in
  if (0 <? List.length teamCategories)%nat then
    set_takeaways base1
      (findStat teamCategories "defensive" "sacks")
      (findStat teamCategories "defensiveInterceptions" "interceptions")
      (findStat teamCategories "general" "fumblesForced")
  else base1.

Definition fetchTeamDetailedStats (t : StandingsTeam) : Async TeamDefenseStats :=
  let base := baseRecord t in
  try_catch
    (res <- fetch (statisticsUrl (st_id t)) ;;
     if negb (ok res) then ret base
     else
       data <- json res ;;
       ret (mergeStatistics t base (asStatistics data)))
    (ret base).

(** ** The route *)

(** The body handed to [NextResponse.json]. *)
Record Envelope := mkEnvelope {
  env_error : option string;
  env_stats : list TeamDefenseStats;
  env_lastUpdated : option string;
  env_source : option string
}.

Record Reply := mkReply { status : nat; envelope : Envelope }.

Definition errorReply (message : string) : Reply :=
  {| status := 500;
     envelope := {| env_error := Some message; env_stats := [];
                    env_lastUpdated := None; env_source := None |} |}.

Definition standingsUrl : string :=
  "https://site.web.api.espn.com/apis/v2/sports/football/nfl/standings?season=2024&type=1".

Section Route.

Variable parseFloat : string -> option number.

(** [now] is [new Date().toISOString()] at the time of the reply. *)
Definition GET (now : string) : Async Reply :=
  try_catch
    (standingsRes <- fetch standingsUrl ;;
     if negb (ok standingsRes) then ret (errorReply "Failed to fetch standings")
     else
       standingsData <- json standingsRes ;;
       let teams := extractTeamsFromStandings parseFloat (asStandings standingsData) in
       if (List.length teams =? 0)%nat then ret (errorReply "No teams found in standings")
       else
         detailedStats <- Promise_all (map fetchTeamDetailedStats teams) ;;
         ret {| status := 200;
                envelope := {| env_error := None;
                               env_stats := computeEfficiencyRating detailedStats;
                               env_lastUpdated := Some now;
                               env_source := Some "ESPN API - 2024 Season" |} |})
    (ret (errorReply "Failed to fetch NFL statistics")).

End Route.

(** ** Vocabulary of the properties of the route *)

(** The statistics fetch of a team fails: [fetch] rejects, the status is
    not a success, or the body is not a document. *)
Definition fetchFails (o : FetchOutcome) : Prop :=
  match o with
  | NetworkFailure => True
  | Responds r => ok r = false \/ body r = None
  end.

(** The record [fetchTeamDetailedStats(t)] resolves to, read off the
    upstream. *)
Definition settled (up : Upstream) (t : StandingsTeam) : TeamDefenseStats :=
  match up (statisticsUrl (st_id t)) with
  | NetworkFailure => baseRecord t
  | Responds r =>
      if negb (ok r) then baseRecord t
      else match body r with
           | Some d => mergeStatistics t (baseRecord t) (asStatistics d)
           | None => baseRecord t
           end
  end.

(** The entries of a standings document, conference after conference. *)
Definition standingsEntries (data : StandingsData) : list ESPNStandingsEntry :=
  match children data with
  | None => []
  | Some conferences =>
      flat_map (fun conference =>
                  match standings conference with
                  | None => []
                  | Some s => entries s
                  end) conferences
  end.

(** Two replies that differ at most in [lastUpdated]. *)
Definition same_except_lastUpdated (r1 r2 : Reply) : Prop :=
  status r1 = status r2
  /\ env_error (envelope r1) = env_error (envelope r2)
  /\ env_stats (envelope r1) = env_stats (envelope r2)
  /\ env_source (envelope r1) = env_source (envelope r2).

(** ** Sample data *)

Definition sampleRecord (code : string) (pts yds sck int fum : number)
    : TeamDefenseStats :=
  {| team := code; fullName := code; logo := "";
     pointsAllowed := pts; yardsAllowed := yds;
     passYardsAllowed := 0; rushYardsAllowed := 0;
     sacks := sck; interceptions := int; fumbles := fum; dvoa := 0 |}.

Definition PHI : TeamDefenseStats := sampleRecord "PHI" (178 # 10) (2784 # 10) 41 13 12.
Definition DAL : TeamDefenseStats := sampleRecord "DAL" (275 # 10) (3552 # 10) 37 9 8.
Definition WAS : TeamDefenseStats := sampleRecord "WAS" (230 # 10) (3270 # 10) 41 7 10.

(** A [parseFloat] that never finds a number. *)
Definition parseFloat_NaN : string -> option number := fun _ => None.

Definition standingsStat (name : string) (v : number) : ESPNStandingsStat :=
  {| stat_name := name; stat_displayValue := ""; stat_value := v;
     stat_abbreviation := None; stat_type := None |}.

Definition standingsEntry (id code : string) (w l pa : number) : ESPNStandingsEntry :=
  {| entry_team := {| team_id := id; team_abbreviation := code;
                      team_displayName := code; team_logos := None |};
     entry_stats := Some [standingsStat "wins" w; standingsStat "losses" l;
                          standingsStat "pointsAgainst" pa] |}.

Definition standingsOf (es : list ESPNStandingsEntry) : Document :=
  StandingsDocument
    {| children := Some [ {| standings := Some {| entries := es |} |} ] |}.

(** An upstream that serves [doc] as the standings and fails every other
    request. *)
Definition upstreamOf (doc : Document) : Upstream :=
  fun url =>
    if String.eqb url standingsUrl
    then Responds {| ok := true; body := Some doc |}
    else NetworkFailure.

(** Standings in which the entry of one team is listed under two
    conference groups. *)
Definition duplicatedStandings : Document :=
  StandingsDocument
    {| children :=
         Some [ {| standings :=
                     Some {| entries := [standingsEntry "21" "PHI" 14 3 303;
                                         standingsEntry "6" "DAL" 7 10 468] |} |};
                {| standings :=
                     Some {| entries := [standingsEntry "21" "PHI" 14 3 303] |} |} ] |}.

(** A statistics document with the groups of the source: [opponent] an
    array of categories, [stats] an object with [categories]. *)
Definition sampleStatistics : Document :=
  let entry n v := {| se_name := Some n; se_value := Some v |} in
  let category n l := {| cat_name := Some n; cat_stats := Some l |} in
  StatisticsDocument
    {| results :=
         Some {| opponent :=
                   Some [category "passing" [entry "netPassingYards" 3179];
                         category "rushing" [entry "rushingYards" 1768;
                                             entry "totalYards" 4947]];
                 stats :=
                   StatsObject
                     (Some [category "defensive" [entry "sacks" 41];
                            category "defensiveInterceptions"
                              [entry "interceptions" 13];
                            category "general" [entry "fumblesForced" 12]]) |};
       top := {| opponent := None; stats := StatsAbsent |} |}.

(** An upstream with two teams in the standings: the statistics of team
    21 are served, the statistics request of team 6 is rejected. *)
Definition mixedUpstream : Upstream :=
  fun url =>
    if String.eqb url standingsUrl then
      Responds {| ok := true;
                  body := Some (standingsOf [standingsEntry "21" "PHI" 14 3 303;
                                             standingsEntry "6" "DAL" 7 10 468]) |}
    else if String.eqb url (statisticsUrl "21") then
      Responds {| ok := true; body := Some sampleStatistics |}
    else NetworkFailure.

(** An upstream whose standings request is answered with an error status. *)
Definition failingUpstream : Upstream :=
  fun _ => Responds {| ok := false; body := None |}.

(** ** Client state: the slice

    The reducer of [createSlice] as a function of the state and of the
    action; the actions are the three of [reducers] and the three
    lifecycle actions of the thunk [fetchNFLStats]. *)

Inductive MetricKey :=
| KeyPointsAllowed
| KeyYardsAllowed
| KeySacks
| KeyInterceptions
| KeyDvoa.

Record NFLStatsState := mkNFLStatsState {
  defenseData : list TeamDefenseStats;
  loading : bool;
  error : option string;
  selectedMetric : MetricKey;
  team1 : string;
  team2 : string
}.

Definition initialState : NFLStatsState :=
  {| defenseData := []; loading := false; error := None;
     selectedMetric := KeyPointsAllowed; team1 := "PHI"; team2 := "DAL" |}.

(** The payload of [rejected] is [None] when it is [undefined]. *)
Inductive Action :=
| SetSelectedMetric (payload : MetricKey)
| SetTeam1 (payload : string)
| SetTeam2 (payload : string)
| Pending
| Fulfilled (payload : list TeamDefenseStats)
| Rejected (payload : option string).

Definition reducer (state : NFLStatsState) (action : Action) : NFLStatsState :=
  match action with
  | SetSelectedMetric m =>
      {| defenseData := defenseData state; loading := loading state;
         error := error state; selectedMetric := m;
         team1 := team1 state; team2 := team2 state |}
  | SetTeam1 t =>
      {| defenseData := defenseData state; loading := loading state;
         error := error state; selectedMetric := selectedMetric state;
         team1 := t; team2 := team2 state |}
  | SetTeam2 t =>
      {| defenseData := defenseData state; loading := loading state;
         error := error state; selectedMetric := selectedMetric state;
         team1 := team1 state; team2 := t |}
  | Pending =>
      {| defenseData := defenseData state; loading := true;
         error := None; selectedMetric := selectedMetric state;
         team1 := team1 state; team2 := team2 state |}
  | Fulfilled payload =>
      match payload with
      | p0 :: p1 :: _ =>
          {| defenseData := payload; loading := false;
             error := error state; selectedMetric := selectedMetric state;
             team1 := team p0; team2 := team p1 |}
      | _ =>
          {| defenseData := payload; loading := false;
             error := error state; selectedMetric := selectedMetric state;
             team1 := team1 state; team2 := team2 state |}
      end
  | Rejected payload =>
      {| defenseData := defenseData state; loading := false;
         error := Some (match payload with
                        | Some message => message
                        | None => "An unknown error occurred"
                        end);
         selectedMetric := selectedMetric state;
         team1 := team1 state; team2 := team2 state |}
  end.

(** The state after a sequence of dispatched actions. *)
Definition dispatchAll (state : NFLStatsState) (actions : list Action) : NFLStatsState :=
  fold_left reducer actions state.

(** ** Client: the thunk [fetchNFLStats] *)

(** A thrown value: an [Error] with its message, or anything else. *)
Inductive JSThrown :=
| ErrorObject (message : string)
| OtherValue.

(** [data.stats] of the parsed body: [None] when it is absent. *)
Record ApiData := mkApiData { data_stats : option (list TeamDefenseStats) }.

(** [response.json()]: it rejects, or resolves to the parsed body. *)
Inductive ApiJson :=
| JsonRejects (e : JSThrown)
| JsonData (d : ApiData).

(** [fetch("/api/nfl-stats")]: it rejects, or resolves to a response. *)
Inductive ApiOutcome :=
| ApiRejects (e : JSThrown)
| ApiResponds (ok : bool) (status : nat) (json : ApiJson).

(** The decimal numeral a template literal prints for a status code. *)
Definition numberToString (n : nat) : string :=
  NilEmpty.string_of_uint (Nat.to_uint n).

(** The [try] block of the payload creator: the value returned, or the
    value thrown. *)
Definition fetchNFLStats_try (o : ApiOutcome) : JSThrown + list TeamDefenseStats :=
  match o with
  | ApiRejects e => inl e
  | ApiResponds ok status json =>
      if negb ok then inl (ErrorObject ("Failed to fetch: " ++ numberToString status))
      else
        match json with
        | JsonRejects e => inl e
        | JsonData data =>
            match data_stats data with
            | Some stats =>
                if (0 <? List.length stats)%nat then inr stats
                else inl (ErrorObject "No data received from API")
            | None => inl (ErrorObject "No data received from API")
            end
        end
  end.

(** The lifecycle action the thunk dispatches after [Pending]: the value
    returned fulfils, [rejectWithValue] rejects. *)
Definition fetchNFLStats (o : ApiOutcome) : Action :=
  match fetchNFLStats_try o with
  | inr stats => Fulfilled stats
  | inl (ErrorObject message) => Rejected (Some message)
  | inl OtherValue => Rejected (Some "Failed to load data")
  end.

(** What the client's [fetch] resolves to when the route answers with
    [NextResponse.json(envelope, { status })]: [ok] is a status from 200
    to 299, and the body parses to the envelope. *)
Definition apiOutcomeOf (r : Reply) : ApiOutcome :=
  ApiResponds ((200 <=? status r)%nat && (status r <=? 299)%nat) (status r)
    (JsonData {| data_stats := Some (env_stats (envelope r)) |}).

(** ** The route as it runs

    [Promise.all(teams.map(fetchTeamDetailedStats))] starts every task at
    once: each runs up to its first [await], so all the requests are
    out, and each continues when what it awaits settles, in an order the
    network decides.  A task is a small machine with one step per
    [await]; a run of the pool takes the steps of the tasks in any
    order.  What the tasks share is the console. *)

Inductive TaskState :=
| AwaitingResponse
| AwaitingBody (res : Response)
| Resolved (record : TeamDefenseStats).

Definition isResolved (st : TaskState) : bool :=
  match st with
  | Resolved _ => true
  | _ => false
  end.

(** The message of [console.error] in the handler of
    [fetchTeamDetailedStats]. *)
Definition taskError (t : StandingsTeam) : string :=
  "Failed to fetch stats for " ++ st_abbr t ++ ":".

(** The continuation of the task of [t] after the [await] it stands at:
    its next state and what it writes to the console. *)
Definition taskStep (up : Upstream) (t : StandingsTeam) (st : TaskState)
    : TaskState * list string :=
  match st with
  | AwaitingResponse =>
      match up (statisticsUrl (st_id t)) with
      | NetworkFailure => (Resolved (baseRecord t), [taskError t])
      | Responds res =>
          if negb (ok res) then (Resolved (baseRecord t), [])
          else (AwaitingBody res, [])
      end
  | AwaitingBody res =>
      match body res with
      | Some data =>
          (Resolved (mergeStatistics t (baseRecord t) (asStatistics data)), [])
      | None => (Resolved (baseRecord t), [taskError t])
      end
  | Resolved record => (Resolved record, [])
  end.

Record Pool := mkPool {
  tasks : list (StandingsTeam * TaskState);
  console : list string
}.

(** Every task has called [fetch] and waits for its response. *)
Definition startAll (teams : list StandingsTeam) : Pool :=
  {| tasks := map (fun t => (t, AwaitingResponse)) teams; console := [] |}.

(** One task that is not resolved takes its step. *)
Inductive poolStep (up : Upstream) : Pool -> Pool -> Prop :=
| step_task before t st after out st' lines :
    isResolved st = false ->
    taskStep up t st = (st', lines) ->
    poolStep up
      {| tasks := (before ++ (t, st) :: after)%list; console := out |}
      {| tasks := (before ++ (t, st') :: after)%list;
         console := (out ++ lines)%list |}.

Inductive poolRun (up : Upstream) : Pool -> Pool -> Prop :=
| run_here p : poolRun up p p
| run_next p q r : poolStep up p q -> poolRun up q r -> poolRun up p r.

(** A run of the route: the reply, and the lines written to the console.
    [Promise.all] resolves, with the records in the order of the teams,
    once every task is resolved. *)
Inductive GET_run (parseFloat : string -> option number) (now : string)
    (up : Upstream) : Reply -> list string -> Prop :=
| GET_run_rejected :
    up standingsUrl = NetworkFailure ->
    GET_run parseFloat now up (errorReply "Failed to fetch NFL statistics")
            ["Error in NFL stats API:"]
| GET_run_not_ok r :
    up standingsUrl = Responds r -> ok r = false ->
    GET_run parseFloat now up (errorReply "Failed to fetch standings") []
| GET_run_no_document r :
    up standingsUrl = Responds r -> ok r = true -> body r = None ->
    GET_run parseFloat now up (errorReply "Failed to fetch NFL statistics")
            ["Error in NFL stats API:"]
| GET_run_no_teams r d :
    up standingsUrl = Responds r -> ok r = true -> body r = Some d ->
    extractTeamsFromStandings parseFloat (asStandings d) = [] ->
    GET_run parseFloat now up (errorReply "No teams found in standings") []
| GET_run_teams r d final detailedStats :
    up standingsUrl = Responds r -> ok r = true -> body r = Some d ->
    extractTeamsFromStandings parseFloat (asStandings d) <> [] ->
    poolRun up (startAll (extractTeamsFromStandings parseFloat (asStandings d)))
            final ->
    map snd (tasks final) = map Resolved detailedStats ->
    GET_run parseFloat now up
      {| status := 200;
         envelope := {| env_error := None;
                        env_stats := computeEfficiencyRating detailedStats;
                        env_lastUpdated := Some now;
                        env_source := Some "ESPN API - 2024 Season" |} |}
      (console final).

(** What the state of a task records of the upstream. *)
Definition taskInv (up : Upstream) (task : StandingsTeam * TaskState) : Prop :=
  match snd task with
  | AwaitingResponse => True
  | AwaitingBody res =>
      up (statisticsUrl (st_id (fst task))) = Responds res /\ ok res = true
  | Resolved record => record = settled up (fst task)
  end.

(** ** The bytes of a reply *)

Section Serialisation.

(** [JSON.stringify] of a number and of a string (with its quotes and
    escapes). *)
Variable JSON_number : number -> string.
Variable JSON_string : string -> string.

Definition JSON_member (key value : string) : string :=
  JSON_string key ++ ":" ++ value.

Definition JSON_object (members : list string) : string :=
  "{" ++ String.concat "," members ++ "}".

Definition JSON_array (items : list string) : string :=
  "[" ++ String.concat "," items ++ "]".

(** The keys of a record come in the order of the literal that built
    [base]. *)
Definition stringifyRecord (t : TeamDefenseStats) : string :=
  JSON_object
    [ JSON_member "team" (JSON_string (team t));
      JSON_member "fullName" (JSON_string (fullName t));
      JSON_member "logo" (JSON_string (logo t));
      JSON_member "pointsAllowed" (JSON_number (pointsAllowed t));
      JSON_member "yardsAllowed" (JSON_number (yardsAllowed t));
      JSON_member "passYardsAllowed" (JSON_number (passYardsAllowed t));
      JSON_member "rushYardsAllowed" (JSON_number (rushYardsAllowed t));
      JSON_member "sacks" (JSON_number (sacks t));
      JSON_member "interceptions" (JSON_number (interceptions t));
      JSON_member "fumbles" (JSON_number (fumbles t));
      JSON_member "dvoa" (JSON_number (dvoa t)) ].

(** The body [NextResponse.json] sends: the keys that are there, in the
    order of the two literals of [GET]. *)
Definition stringifyEnvelope (e : Envelope) : string :=
  JSON_object
    ((match env_error e with
      | Some message => [JSON_member "error" (JSON_string message)]
      | None => []
      end)
     ++ [JSON_member "stats" (JSON_array (map stringifyRecord (env_stats e)))]
     ++ (match env_lastUpdated e with
         | Some stamp => [JSON_member "lastUpdated" (JSON_string stamp)]
         | None => []
         end)
     ++ (match env_source e with
         | Some source => [JSON_member "source" (JSON_string source)]
         | None => []
         end))%list.

(** The bytes of the value of [lastUpdated], none when the key is not
    there. *)
Definition lastUpdatedBytes (e : Envelope) : string :=
  match env_lastUpdated e with
  | Some stamp => JSON_string stamp
  | None => ""
  end.

End Serialisation.

(** A [JSON.stringify] for the examples: strings between quotes without
    escapes, numbers by their integer part. *)
Definition quoteMark : string := String (ascii_of_nat 34) EmptyString.

Definition sampleJSONString (s : string) : string := quoteMark ++ s ++ quoteMark.

Definition sampleJSONNumber (x : number) : string :=
  numberToString (Z.to_nat (Qfloor x)).

(** An upstream with two teams in the standings whose statistics
    requests are both rejected. *)
Definition rejectingUpstream : Upstream :=
  upstreamOf (standingsOf [standingsEntry "21" "PHI" 14 3 303;
                           standingsEntry "6" "DAL" 7 10 468]).

(** ** Arrays, maps and objects of the selectors *)

Section ArraySort.

Context {A : Type}.
Variable compareFn : A -> A -> number.

(** [x], which stood before every element of [l], goes before the first
    element it is not to follow. *)
Fixpoint sort_insert (x : A) (l : list A) : list A :=
  match l with
  | [] => [x]
  | y :: r => if gt (compareFn x y) 0 then y :: sort_insert x r else x :: y :: r
  end.

(** [[...l].sort(compareFn)].  The sort of an array is stable, and with a
    consistent comparator every stable sort gives the same array; the one
    used here inserts the elements from the right. *)
Definition Array_sort (l : list A) : list A := fold_right sort_insert [] l.

End ArraySort.

(** A [Map] with string keys, and an object as the list of its
    properties: the entries in the order of their first insertion. *)
Definition JSMap (V : Type) : Type := list (string * V).

(** [m.set(k, v)], and the definition of property [k] in an object
    literal: an entry that is there keeps its place and takes the value. *)
Fixpoint Map_set {V} (m : JSMap V) (k : string) (v : V) : JSMap V :=
  match m with
  | [] => [(k, v)]
  | (k', v') :: r =>
      if String.eqb k' k then (k, v) :: r else (k', v') :: Map_set r k v
  end.

(** [m.get(k)]; [None] is [undefined]. *)
Fixpoint Map_get {V} (m : JSMap V) (k : string) : option V :=
  match m with
  | [] => None
  | (k', v') :: r => if String.eqb k' k then Some v' else Map_get r k
  end.

(** [new Map(entries)]. *)
Definition Map_from {V} (entries : list (string * V)) : JSMap V :=
  fold_left (fun m e => Map_set m (fst e) (snd e)) entries [].

Inductive JSValue :=
| VString (s : string)
| VNumber (n : number).

(** ** Selectors *)

(** [t[metric]]. *)
Definition metricOf (metric : MetricKey) : TeamDefenseStats -> number :=
  match metric with
  | KeyPointsAllowed => pointsAllowed
  | KeyYardsAllowed => yardsAllowed
  | KeySacks => sacks
  | KeyInterceptions => interceptions
  | KeyDvoa => dvoa
  end.

Definition ascendingMetric (metric : MetricKey) : bool :=
  match metric with
  | KeyPointsAllowed | KeyYardsAllowed => true
  | _ => false
  end.

Section Selectors.

(** [a.localeCompare(b)]. *)
Variable localeCompare : string -> string -> number.

(** The comparator of [selectSortedData]. *)
Definition compareByMetric (metric : MetricKey) (a b : TeamDefenseStats) : number :=
  if ascendingMetric metric then
    let diff := metricOf metric a - metricOf metric b in
    if negb (Qeq_bool diff 0) then diff else localeCompare (team a) (team b)
  else
    let diff := metricOf metric b - metricOf metric a in
    if negb (Qeq_bool diff 0) then diff else localeCompare (team a) (team b).

Definition selectSortedData (state : NFLStatsState) : list TeamDefenseStats :=
  Array_sort (compareByMetric (selectedMetric state)) (defenseData state).

End Selectors.

Definition selectTableData (state : NFLStatsState) : list TeamDefenseStats :=
  Array_sort (fun a b => pointsAllowed a - pointsAllowed b) (defenseData state).

Definition selectLogoMap (state : NFLStatsState) : JSMap string :=
  Map_from (map (fun t => (team t, logo t)) (defenseData state)).

Definition selectTeamFullName (abbr : string) (state : NFLStatsState) : option string :=
  option_map fullName (find (fun t => String.eqb (team t) abbr) (defenseData state)).

(** One object of the array of [getRadarData]:
    [{ stat, [team1]: v1, [team2]: v2, fullMark: 100 }]. *)
Definition radarRow (stat team1 team2 : string) (v1 v2 : number) : JSMap JSValue :=
  Map_set (Map_set (Map_set (Map_set [] "stat" (VString stat))
                            team1 (VNumber v1))
                   team2 (VNumber v2))
          "fullMark" (VNumber 100).

(** [getRadarData] of the chart component, which is also the result
    function of [selectRadarData].  The maxima are taken only once both
    teams are found, so the array is not empty there. *)
Definition getRadarData (data : list TeamDefenseStats) (team1 team2 : string)
    : list (JSMap JSValue) :=
  match find (fun t => String.eqb (team t) team1) data,
        find (fun t => String.eqb (team t) team2) data with
  | Some t1, Some t2 =>
      match data with
      | [] => []
      | d0 :: rest =>
          let maxPoints := or_number (Math_max (pointsAllowed d0) (map pointsAllowed rest)) 1 in
          let maxYards := or_number (Math_max (yardsAllowed d0) (map yardsAllowed rest)) 1 in
          let maxSacks := or_number (Math_max (sacks d0) (map sacks rest)) 1 in
          let maxInt := or_number (Math_max (interceptions d0) (map interceptions rest)) 1 in
          let maxFumbles := or_number (Math_max (fumbles d0) (map fumbles rest)) 1 in
          [ radarRow "Points Allowed" team1 team2
              (Math_round (((maxPoints - pointsAllowed t1) / maxPoints) * 100))
              (Math_round (((maxPoints - pointsAllowed t2) / maxPoints) * 100));
            radarRow "Yards Allowed" team1 team2
              (Math_round (((maxYards - yardsAllowed t1) / maxYards) * 100))
              (Math_round (((maxYards - yardsAllowed t2) / maxYards) * 100));
            radarRow "Sacks" team1 team2
              (Math_round ((sacks t1 / maxSacks) * 100))
              (Math_round ((sacks t2 / maxSacks) * 100));
            radarRow "Interceptions" team1 team2
              (Math_round ((interceptions t1 / maxInt) * 100))
              (Math_round ((interceptions t2 / maxInt) * 100));
            radarRow "Forced Fumbles" team1 team2
              (Math_round ((fumbles t1 / maxFumbles) * 100))
              (Math_round ((fumbles t2 / maxFumbles) * 100)) ]
      end
  | _, _ => []
  end.

Definition selectRadarData (state : NFLStatsState) : list (JSMap JSValue) :=
  getRadarData (defenseData state) (team1 state) (team2 state).

(** ** Service: the teams of a scoreboard *)

Record ScoreboardTeam := mkScoreboardTeam {
  sb_abbreviation : string;
  sb_displayName : string;
  sb_logo : option string
}.

Record Competitor := mkCompetitor { competitor_team : ScoreboardTeam }.

Record Competition := mkCompetition { competitors : option (list Competitor) }.

Record ScoreboardEvent := mkScoreboardEvent { competitions : option (list Competition) }.

Record ScoreboardData := mkScoreboardData { events : option (list ScoreboardEvent) }.

(** A value of the map built by [fetchNFLTeams]. *)
Record TeamInfo := mkTeamInfo { info_name : string; info_logo : string }.

(** The competitors in the order in which the three nested loops of
    [fetchFromSeasonStats] visit them. *)
Definition scoreboardCompetitors (data : ScoreboardData) : list Competitor :=
  match events data with
  | None => []
  | Some evs =>
      flat_map (fun event =>
                  flat_map (fun competition =>
                              match competitors competition with
                              | Some l => l
                              | None => []
                              end)
                           (match competitions event with
                            | Some l => l
                            | None => []
                            end)) evs
  end.

(** The body of the innermost loop, on the set [seenTeams] (the codes in
    the order they were added) and the array [teams]. *)
Definition seasonStatsStep (teamInfo : JSMap TeamInfo)
    (st : list string * list TeamDefenseStats) (competitor : Competitor)
    : list string * list TeamDefenseStats :=
  let (seenTeams, teams) := st in
  let team := competitor_team competitor in
  if existsb (String.eqb (sb_abbreviation team)) seenTeams then (seenTeams, teams)
  else
    let info := Map_get teamInfo (sb_abbreviation team) in
    ((seenTeams ++ [sb_abbreviation team])%list,
     (teams ++ [ {| team := sb_abbreviation team;
                    fullName := or_string (option_map info_name info)
                                          (sb_displayName team);
                    logo := or_string (option_map info_logo info)
                                      (or_string (sb_logo team) "");
                    pointsAllowed := 0; yardsAllowed := 0;
                    passYardsAllowed := 0; rushYardsAllowed := 0;
                    sacks := 0; interceptions := 0; fumbles := 0;
                    dvoa := 0 |} ])%list).

(** The part of [fetchFromSeasonStats] after [response.json()]. *)
Definition seasonStatsTeams (data : ScoreboardData) (teamInfo : JSMap TeamInfo)
    : list TeamDefenseStats :=
  snd (fold_left (seasonStatsStep teamInfo) (scoreboardCompetitors data) ([], [])).

(** ** Vocabulary of the properties of the lookups *)

(** A statistics category with every name rewritten by [recase]. *)
Definition recaseEntry (recase : string -> string) (e : ESPNStatEntry) : ESPNStatEntry :=
  {| se_name := option_map recase (se_name e); se_value := se_value e |}.

Definition recaseCategory (recase : string -> string) (c : ESPNStatCategory)
    : ESPNStatCategory :=
  {| cat_name := option_map recase (cat_name c);
     cat_stats := option_map (map (recaseEntry recase)) (cat_stats c) |}.

(** [s.toUpperCase()] on the ASCII letters. *)
Definition upper_ascii (c : ascii) : ascii :=
  let n := nat_of_ascii c in
  if (97 <=? n)%nat && (n <=? 122)%nat then ascii_of_nat (n - 32) else c.

Fixpoint toUpperCase (s : string) : string :=
  match s with
  | EmptyString => EmptyString
  | String c r => String (upper_ascii c) (toUpperCase r)
  end.

(** A comparison of strings by character codes, which stands for
    [localeCompare] in the examples. *)
Definition codeCompare (a b : string) : number :=
  match String.compare a b with
  | Lt => -1
  | Eq => 0
  | Gt => 1
  end.

(** ** Vocabulary of the properties of the rounding *)


(** Every numeric field of the record is 0. *)
Definition noStatistics (t : TeamDefenseStats) : Prop :=
  pointsAllowed t = 0 /\ yardsAllowed t = 0
  /\ passYardsAllowed t = 0 /\ rushYardsAllowed t = 0
  /\ sacks t = 0 /\ interceptions t = 0 /\ fumbles t = 0
  /\ dvoa t = 0.

(** * Properties *)

(** ** Arithmetic of the scorer *)

Lemma Math_min_le_init (xs : list number) (x : number) : Math_min x xs <= x.
Proof.
  revert x; induction xs as [|y ys IH]; intros x; unfold Math_min in *; simpl.
  - apply Qle_refl.
  - eapply Qle_trans; [apply IH | apply Q.le_min_l].
Qed.

Lemma Math_min_le_elem (xs : list number) (x y : number) :
  In y xs -> Math_min x xs <= y.
Proof.
  revert x; induction xs as [|z zs IH]; intros x Hin; [destruct Hin|].
  destruct Hin as [->|Hin]; unfold Math_min; simpl.
  - eapply Qle_trans; [apply Math_min_le_init | apply Q.le_min_r].
  - apply IH, Hin.
Qed.

Lemma Math_max_ge_init (xs : list number) (x : number) : x <= Math_max x xs.
Proof.
  revert x; induction xs as [|y ys IH]; intros x; unfold Math_max in *; simpl.
  - apply Qle_refl.
  - eapply Qle_trans; [apply Q.le_max_l | apply IH].
Qed.

Lemma Math_max_ge_elem (xs : list number) (x y : number) :
  In y xs -> y <= Math_max x xs.
Proof.
  revert x; induction xs as [|z zs IH]; intros x Hin; [destruct Hin|].
  destruct Hin as [->|Hin]; unfold Math_max; simpl.
  - eapply Qle_trans; [apply Q.le_max_r | apply Math_max_ge_init].
  - apply IH, Hin.
Qed.

(** Every value of the batch lies between the batch minimum and maximum. *)
Lemma minMax_bounds fn t0 rest t :
  In t (t0 :: rest) ->
  mm_min (minMax fn t0 rest) <= fn t <= mm_max (minMax fn t0 rest).
Proof.
  intros [->|Hin]; simpl.
  - split; [apply Math_min_le_init | apply Math_max_ge_init].
  - split; [apply Math_min_le_elem | apply Math_max_ge_elem];
      apply in_map, Hin.
Qed.

Lemma norm_range (v : number) (mm : MinMax) :
  mm_min mm <= v <= mm_max mm -> 0 <= norm v mm <= 1.
Proof.
  intros [Hlo Hhi]. unfold norm.
  destruct (Qeq_bool (mm_max mm) (mm_min mm)) eqn:E.
  - split; lra.
  - apply Qeq_bool_neq in E.
    assert (Hpos : 0 < mm_max mm - mm_min mm).
    { destruct (Qlt_le_dec (mm_min mm) (mm_max mm)) as [Hlt|Hle]; [lra|].
      exfalso; apply E; apply Qle_antisym; [exact Hle | lra]. }
    split.
    + apply Qle_shift_div_l; [exact Hpos | lra].
    + apply Qle_shift_div_r; [exact Hpos | lra].
Qed.

Lemma Math_round_range (x : number) :
  0 <= x <= 1000 -> 0 <= Math_round x <= 1000.
Proof.
  intros [Hlo Hhi]. unfold Math_round.
  assert (H0 : (Qfloor 0 <= Qfloor (x + (1 # 2)))%Z)
    by (apply Qfloor_resp_le; lra).
  assert (H1 : (Qfloor (x + (1 # 2)) <= Qfloor (1000 + (1 # 2)))%Z)
    by (apply Qfloor_resp_le; lra).
  change (Qfloor 0) with 0%Z in H0.
  change (Qfloor (1000 + (1 # 2))) with 1000%Z in H1.
  split.
  - change 0 with (inject_Z 0). rewrite <- Zle_Qle. exact H0.
  - change 1000 with (inject_Z 1000). rewrite <- Zle_Qle. exact H1.
Qed.

Lemma round1_range (x : number) : 0 <= x <= 100 -> 0 <= round1 x <= 100.
Proof.
  intros [Hlo Hhi]. unfold round1.
  assert (H : 0 <= Math_round (x * 10) <= 1000)
    by (apply Math_round_range; split; lra).
  destruct H as [H0 H1].
  split.
  - apply Qle_shift_div_l; lra.
  - apply Qle_shift_div_r; lra.
Qed.

Lemma Qfloor_half (z : Z) : Qfloor (inject_Z z + (1 # 2)) = z.
Proof.
  assert (Hle : (z <= Qfloor (inject_Z z + (1 # 2)))%Z).
  { rewrite <- (Qfloor_Z z) at 1. apply Qfloor_resp_le. lra. }
  assert (Hlt : (Qfloor (inject_Z z + (1 # 2)) < z + 1)%Z).
  { rewrite Zlt_Qlt. eapply Qle_lt_trans; [apply Qfloor_le|].
    rewrite inject_Z_plus. change (inject_Z 1) with 1. lra. }
  lia.
Qed.

(** The value of an integer number of tenths is kept by the rounding. *)
Lemma round1_tenths (z : Z) (x : number) :
  x * 10 == inject_Z z -> round1 x == x.
Proof.
  intros H. unfold round1, Math_round.
  rewrite H, Qfloor_half, <- H. field.
Qed.




(** The rounding does not pass an integer number of tenths. *)
Lemma round1_le_tenths (z : Z) (x : number) :
  x * 10 <= inject_Z z -> round1 x <= inject_Z z / 10.
Proof.
  intros H. unfold round1, Math_round.
  assert (Hz : (Qfloor (x * 10 + (1 # 2)) <= Qfloor (inject_Z z + (1 # 2)))%Z)
    by (apply Qfloor_resp_le; lra).
  rewrite Qfloor_half, Zle_Qle in Hz.
  apply Qle_shift_div_l; [reflexivity|].
  assert (E : inject_Z (Qfloor (x * 10 + (1 # 2))) / 10 * 10
              == inject_Z (Qfloor (x * 10 + (1 # 2)))) by field.
  rewrite E. exact Hz.
Qed.

Lemma Math_min_glb (xs : list number) (x v : number) :
  v <= x -> (forall y, In y xs -> v <= y) -> v <= Math_min x xs.
Proof.
  revert x; induction xs as [|z zs IH]; intros x Hx Hall; unfold Math_min; simpl.
  - exact Hx.
  - apply IH.
    + apply Q.min_glb; [exact Hx | apply Hall; left; reflexivity].
    + intros y Hy; apply Hall; right; exact Hy.
Qed.

Lemma Math_max_lub (xs : list number) (x v : number) :
  x <= v -> (forall y, In y xs -> y <= v) -> Math_max x xs <= v.
Proof.
  revert x; induction xs as [|z zs IH]; intros x Hx Hall; unfold Math_max; simpl.
  - exact Hx.
  - apply IH.
    + apply Q.max_lub; [exact Hx | apply Hall; left; reflexivity].
    + intros y Hy; apply Hall; right; exact Hy.
Qed.

(** The minimum of the batch is the value of a team that is lowest. *)
Lemma minMax_min_of_lowest fn t0 rest t :
  In t (t0 :: rest) ->
  (forall u, In u (t0 :: rest) -> fn t <= fn u) ->
  mm_min (minMax fn t0 rest) == fn t.
Proof.
  intros Hin Hlow. apply Qle_antisym.
  - apply (minMax_bounds fn t0 rest t Hin).
  - simpl. apply Math_min_glb.
    + apply Hlow; left; reflexivity.
    + intros y Hy. apply in_map_iff in Hy as [u [<- Hu]].
      apply Hlow; right; exact Hu.
Qed.

Lemma minMax_max_of_highest fn t0 rest t :
  In t (t0 :: rest) ->
  (forall u, In u (t0 :: rest) -> fn u <= fn t) ->
  mm_max (minMax fn t0 rest) == fn t.
Proof.
  intros Hin Hhigh. apply Qle_antisym.
  - simpl. apply Math_max_lub.
    + apply Hhigh; left; reflexivity.
    + intros y Hy. apply in_map_iff in Hy as [u [<- Hu]].
      apply Hhigh; right; exact Hu.
  - apply (minMax_bounds fn t0 rest t Hin).
Qed.

(** A metric with one value across the batch has equal minimum and maximum. *)
Lemma minMax_constant fn t0 rest :
  (forall u, In u rest -> fn u == fn t0) ->
  mm_max (minMax fn t0 rest) == mm_min (minMax fn t0 rest).
Proof.
  intros Hc.
  assert (Hin : In t0 (t0 :: rest)) by (left; reflexivity).
  rewrite (minMax_min_of_lowest fn t0 rest t0 Hin),
          (minMax_max_of_highest fn t0 rest t0 Hin).
  - reflexivity.
  - intros u [<-|Hu]; [apply Qle_refl | rewrite (Hc u Hu); apply Qle_refl].
  - intros u [<-|Hu]; [apply Qle_refl | rewrite (Hc u Hu); apply Qle_refl].
Qed.

(** The expression of the source is the sum of the five contributions. *)
Lemma score_contributions t0 rest t :
  score (minMax pointsAllowed t0 rest) (minMax yardsAllowed t0 rest)
        (minMax sacks t0 rest) (minMax interceptions t0 rest)
        (minMax fumbles t0 rest) t
  = contribution PointsAllowed t0 rest t + contribution YardsAllowed t0 rest t
    + contribution Sacks t0 rest t + contribution Interceptions t0 rest t
    + contribution Fumbles t0 rest t.
Proof. reflexivity. Qed.

Lemma computeEfficiencyRating_cons t0 rest :
  computeEfficiencyRating (t0 :: rest)
  = map (fun t =>
           set_dvoa t
             (round1 (contribution PointsAllowed t0 rest t
                      + contribution YardsAllowed t0 rest t
                      + contribution Sacks t0 rest t
                      + contribution Interceptions t0 rest t
                      + contribution Fumbles t0 rest t)))
        (t0 :: rest).
Proof. reflexivity. Qed.

Lemma contribution_range m t0 rest t :
  In t (t0 :: rest) -> 0 <= contribution m t0 rest t <= weight m.
Proof.
  intros Hin. unfold contribution.
  pose proof (norm_range _ _ (minMax_bounds (metric_value m) t0 rest t Hin))
    as [H0 H1].
  destruct m; cbn [lower_is_better weight]; split; lra.
Qed.

(** C1: the dvoa value that [computeEfficiencyRating] writes into each
    record of a list of team records lies in the closed interval
    [0, 100]. *)
Theorem computeEfficiencyRating_dvoa_range (teams : list TeamDefenseStats) :
  Forall (fun r => 0 <= dvoa r <= 100) (computeEfficiencyRating teams).
Proof.
  destruct teams as [|t0 rest]; [constructor|].
  rewrite computeEfficiencyRating_cons.
  apply Forall_map, Forall_forall. intros t Hin. simpl.
  apply round1_range.
  pose proof (contribution_range PointsAllowed t0 rest t Hin) as [? ?].
  pose proof (contribution_range YardsAllowed t0 rest t Hin) as [? ?].
  pose proof (contribution_range Sacks t0 rest t Hin) as [? ?].
  pose proof (contribution_range Interceptions t0 rest t Hin) as [? ?].
  pose proof (contribution_range Fumbles t0 rest t Hin) as [? ?].
  cbn [weight] in *. split; lra.
Qed.

Lemma norm_tied fn t0 rest (v : number) :
  (forall u, In u rest -> fn u == fn t0) ->
  norm v (minMax fn t0 rest) = 1 # 2.
Proof.
  intros Hc. unfold norm.
  rewrite (Qeq_eq_bool _ _ (minMax_constant fn t0 rest Hc)). reflexivity.
Qed.

Lemma contribution_tied m t0 rest t :
  (forall u, In u rest -> metric_value m u == metric_value m t0) ->
  contribution m t0 rest t == weight m / 2.
Proof.
  intros Hc. unfold contribution.
  rewrite (norm_tied (metric_value m) t0 rest _ Hc).
  destruct m; reflexivity.
Qed.

(** C2: when one of the five weighted metrics has the same value for
    every team of the set scored together (a single team included), the
    normalisation of that metric is exactly 0.5 for every team, and its
    contribution to the score of every team is half its weight. *)
Theorem constant_metric_half_weight (m : Metric) (t0 : TeamDefenseStats)
    (rest : list TeamDefenseStats) (t : TeamDefenseStats) :
  (forall u, In u rest -> metric_value m u == metric_value m t0) ->
  In t (t0 :: rest) ->
  norm (metric_value m t) (minMax (metric_value m) t0 rest) = 1 # 2
  /\ contribution m t0 rest t == weight m / 2.
Proof.
  intros Hc _. split.
  - apply norm_tied, Hc.
  - apply contribution_tied, Hc.
Qed.

Lemma norm_at_min (v : number) (mm : MinMax) :
  ~ mm_max mm == mm_min mm -> v == mm_min mm -> norm v mm == 0.
Proof.
  intros Hne Hv. unfold norm.
  destruct (Qeq_bool (mm_max mm) (mm_min mm)) eqn:E.
  - apply Qeq_bool_eq in E. contradiction.
  - rewrite Hv. field. intros H. apply Hne. lra.
Qed.

Lemma norm_at_max (v : number) (mm : MinMax) :
  ~ mm_max mm == mm_min mm -> v == mm_max mm -> norm v mm == 1.
Proof.
  intros Hne Hv. unfold norm.
  destruct (Qeq_bool (mm_max mm) (mm_min mm)) eqn:E.
  - apply Qeq_bool_eq in E. contradiction.
  - rewrite Hv. field. intros H. apply Hne. lra.
Qed.

(** A team that differs from [t] on [fn] separates minimum and maximum. *)
Lemma minMax_distinct fn t0 rest t u :
  In t (t0 :: rest) -> In u (t0 :: rest) -> ~ fn u == fn t ->
  ~ mm_max (minMax fn t0 rest) == mm_min (minMax fn t0 rest).
Proof.
  intros Ht Hu Hne Heq.
  pose proof (minMax_bounds fn t0 rest t Ht) as [? ?].
  pose proof (minMax_bounds fn t0 rest u Hu) as [? ?].
  apply Hne. lra.
Qed.

(** The contribution of a metric on which [t] is best and some team
    differs from [t] is the whole weight. *)
Lemma contribution_of_best m t0 rest t :
  In t (t0 :: rest) ->
  best_in_all t (t0 :: rest) ->
  (exists u, In u (t0 :: rest) /\ ~ metric_value m u == metric_value m t) ->
  contribution m t0 rest t == weight m.
Proof.
  intros Ht Hbest [u [Hu Hne]].
  pose proof (minMax_distinct (metric_value m) t0 rest t u Ht Hu Hne) as Hd.
  unfold contribution.
  destruct (lower_is_better m) eqn:Hdir.
  - rewrite norm_at_min; [ring | exact Hd |].
    symmetry. apply minMax_min_of_lowest; [exact Ht|].
    intros v Hv. specialize (Hbest m v Hv). rewrite Hdir in Hbest. exact Hbest.
  - rewrite norm_at_max; [ring | exact Hd |].
    symmetry. apply minMax_max_of_highest; [exact Ht|].
    intros v Hv. specialize (Hbest m v Hv). rewrite Hdir in Hbest. exact Hbest.
Qed.

Lemma round1_comp (x y : number) : x == y -> round1 x == round1 y.
Proof. intros H. unfold round1, Math_round. rewrite H. reflexivity. Qed.

(** The rounded score of a team when metric [m] is tied across the
    batch. *)
Lemma score_with_tied_metric m t0 rest t :
  In t (t0 :: rest) ->
  (forall u, In u rest -> metric_value m u == metric_value m t0) ->
  round1 (contribution PointsAllowed t0 rest t + contribution YardsAllowed t0 rest t
          + contribution Sacks t0 rest t + contribution Interceptions t0 rest t
          + contribution Fumbles t0 rest t)
  <= 100 - weight m / 2.
Proof.
  intros Hin Hc.
  assert (Hm : contribution m t0 rest t * 2 == weight m)
    by (rewrite contribution_tied by exact Hc; field).
  pose proof (contribution_range PointsAllowed t0 rest t Hin) as [_ ?].
  pose proof (contribution_range YardsAllowed t0 rest t Hin) as [_ ?].
  pose proof (contribution_range Sacks t0 rest t Hin) as [_ ?].
  pose proof (contribution_range Interceptions t0 rest t Hin) as [_ ?].
  pose proof (contribution_range Fumbles t0 rest t Hin) as [_ ?].
  destruct m; cbn [weight] in *.
  - apply (Qle_trans _ (inject_Z 850 / 10));
      [apply round1_le_tenths; change (inject_Z 850) with 850; lra
      | vm_compute; discriminate].
  - apply (Qle_trans _ (inject_Z 875 / 10));
      [apply round1_le_tenths; change (inject_Z 875) with 875; lra
      | vm_compute; discriminate].
  - apply (Qle_trans _ (inject_Z 900 / 10));
      [apply round1_le_tenths; change (inject_Z 900) with 900; lra
      | vm_compute; discriminate].
  - apply (Qle_trans _ (inject_Z 925 / 10));
      [apply round1_le_tenths; change (inject_Z 925) with 925; lra
      | vm_compute; discriminate].
  - apply (Qle_trans _ (inject_Z 950 / 10));
      [apply round1_le_tenths; change (inject_Z 950) with 950; lra
      | vm_compute; discriminate].
Qed.

(** C3, as amended: a team that has the lowest pointsAllowed and
    yardsAllowed and the highest sacks, interceptions and fumbles of the
    set receives dvoa == 100, provided that on each of the five metrics
    some team of the set differs from it (no metric is tied across the
    whole set); when a metric is tied across the whole set, the team
    receives at most 100 less half the weight of that metric. *)
Theorem best_team_scores_100 (teams : list TeamDefenseStats) (i : nat)
    (t : TeamDefenseStats) :
  nth_error teams i = Some t ->
  best_in_all t teams ->
  exists r, nth_error (computeEfficiencyRating teams) i = Some r
            /\ same_except_dvoa t r
            /\ ((forall m, exists u,
                    In u teams /\ ~ metric_value m u == metric_value m t) ->
                dvoa r == 100)
            /\ (forall m,
                  (forall u, In u teams -> metric_value m u == metric_value m t) ->
                  dvoa r <= 100 - weight m / 2).
Proof.
  intros Hi Hbest.
  destruct teams as [|t0 rest]; [destruct i; discriminate|].
  assert (Ht : In t (t0 :: rest)) by (eapply nth_error_In; exact Hi).
  rewrite computeEfficiencyRating_cons.
  eexists. split; [apply map_nth_error; exact Hi|].
  split; [repeat split|].
  cbn [dvoa set_dvoa]. split.
  - intros Hdiff. transitivity (round1 100).
    + apply round1_comp.
      rewrite !(contribution_of_best _ t0 rest t Ht Hbest (Hdiff _)).
      reflexivity.
    + apply (round1_tenths 1000). reflexivity.
  - intros m Htied.
    assert (Hc : forall u, In u rest -> metric_value m u == metric_value m t0).
    { intros u Hu. rewrite (Htied u (or_intror Hu)).
      symmetry. apply Htied. left. reflexivity. }
    exact (score_with_tied_metric m t0 rest t Ht Hc).
Qed.

Lemma constant_metric_half_weight_witness :
  (forall u, In u [WAS] -> metric_value Sacks u == metric_value Sacks PHI)
  /\ In WAS [PHI; WAS]
  /\ norm (sacks WAS) (minMax sacks PHI [WAS]) = 1 # 2
  /\ contribution Sacks PHI [WAS] WAS == 20 / 2.
Proof.
  assert (Hc : forall u, In u [WAS] -> metric_value Sacks u == metric_value Sacks PHI).
  { intros u [<-|[]]. reflexivity. }
  assert (Hin : In WAS [PHI; WAS]) by (right; left; reflexivity).
  split; [exact Hc|]. split; [exact Hin|].
  exact (constant_metric_half_weight Sacks PHI [WAS] WAS Hc Hin).
Defined.

Lemma best_in_all_PHI : best_in_all PHI [PHI; DAL].
Proof.
  intros m u [<-|[<-|[]]]; destruct m; vm_compute; discriminate.
Qed.

Lemma best_team_scores_100_witness :
  exists r, nth_error (computeEfficiencyRating [PHI; DAL]) 0 = Some r
            /\ same_except_dvoa PHI r /\ dvoa r == 100.
Proof.
  destruct (best_team_scores_100 [PHI; DAL] 0 PHI eq_refl best_in_all_PHI)
    as (r & Hr & Hsame & H100 & _).
  exists r. split; [exact Hr|]. split; [exact Hsame|].
  apply H100. intros m. exists DAL. split; [right; left; reflexivity|].
  destruct m; vm_compute; discriminate.
Defined.

(** C3, as stated, fails: the only team of a one-team set is lowest and
    highest on every metric, every metric is tied, and the team receives
    50, not 100. *)
Lemma best_team_tied_counterexample :
  ~ (forall teams i t,
        nth_error teams i = Some t ->
        best_in_all t teams ->
        exists r, nth_error (computeEfficiencyRating teams) i = Some r
                  /\ dvoa r == 100).
Proof.
  intros H.
  destruct (H [PHI] 0%nat PHI eq_refl) as [r [Hr Hd]].
  - intros m u [<-|[]]; destruct m; vm_compute; discriminate.
  - injection Hr as <-. revert Hd. vm_compute. discriminate.
Qed.

Example scorer_example :
  map (fun t => Qred (dvoa t)) (computeEfficiencyRating [PHI; DAL; WAS])
  = [100; 5; 481 # 10].
Proof. reflexivity. Qed.

Lemma lone_team_scores_50 :
  map dvoa (computeEfficiencyRating [PHI]) = [500 # 10].
Proof. reflexivity. Qed.

Lemma Forall2_map_r {A B} (R : A -> B -> Prop) (f : A -> B) (l : list A) :
  (forall a, R a (f a)) -> Forall2 R l (map f l).
Proof. intros H. induction l; simpl; constructor; auto. Qed.

(** C10: [computeEfficiencyRating] writes only the dvoa field: the list
    keeps its length and its order, and every record keeps every field
    other than dvoa. *)
Theorem computeEfficiencyRating_frame (teams : list TeamDefenseStats) :
  List.length (computeEfficiencyRating teams) = List.length teams
  /\ Forall2 same_except_dvoa teams (computeEfficiencyRating teams).
Proof.
  destruct teams as [|t0 rest]; [split; [reflexivity | constructor]|].
  rewrite computeEfficiencyRating_cons. split.
  - apply length_map.
  - apply Forall2_map_r. intros a. repeat split.
Qed.

(** ** The lookup [getStat] *)

Section Lookup.

Variable parseFloat : string -> option number.

Lemma find_first {A} (f : A -> bool) (l1 l2 : list A) (s : A) :
  (forall x, In x l1 -> f x = false) -> f s = true ->
  find f (l1 ++ s :: l2) = Some s.
Proof.
  intros Hno Hs. induction l1 as [|x l1 IH]; simpl.
  - rewrite Hs. reflexivity.
  - rewrite (Hno x (or_introl eq_refl)). apply IH.
    intros y Hy. apply Hno. right. exact Hy.
Qed.

Lemma find_nothing {A} (f : A -> bool) (l : list A) :
  (forall x, In x l -> f x = false) -> find f l = None.
Proof.
  intros Hno. induction l as [|x l IH]; simpl; [reflexivity|].
  rewrite (Hno x (or_introl eq_refl)). apply IH.
  intros y Hy. apply Hno. right. exact Hy.
Qed.

(** Candidates that match no entry are passed over. *)
Lemma getStat_skip stats pre names :
  (forall n x, In n pre -> In x stats -> stat_matches n x = false) ->
  getStat parseFloat stats (pre ++ names) = getStat parseFloat stats names.
Proof.
  intros Hno. induction pre as [|n pre IH]; simpl; [reflexivity|].
  rewrite find_nothing.
  - apply IH. intros n' x Hn' Hx. apply Hno; [right; exact Hn' | exact Hx].
  - intros x Hx. apply Hno; [left; reflexivity | exact Hx].
Qed.

Lemma stat_number_cases (s : ESPNStandingsStat) :
  (~ stat_value s == 0 -> stat_number parseFloat s = stat_value s)
  /\ (stat_value s == 0 ->
      match parseFloat (stat_displayValue s) with
      | Some q => if Qeq_bool q 0 then stat_number parseFloat s = 0
                  else stat_number parseFloat s = q
      | None => stat_number parseFloat s = 0
      end).
Proof.
  unfold stat_number, or_nan, or_default, truthy. split; intros H.
  - destruct (Qeq_bool (stat_value s) 0) eqn:E.
    + apply Qeq_bool_eq in E. contradiction.
    + simpl. rewrite E. reflexivity.
  - rewrite (Qeq_eq_bool _ _ H). simpl.
    destruct (parseFloat (stat_displayValue s)) as [q|]; [|reflexivity].
    destruct (Qeq_bool q 0); reflexivity.
Qed.

End Lookup.

(** C6: [getStat] tries the candidate keys in order against the name,
    abbreviation and type of the entries of the flat stat array.  The
    first candidate that matches an entry decides: the result is the
    value of the first entry it matches, or, when that value is zero, the
    number parsed from its display value, or 0 when none parses.  When no
    candidate matches, the result is 0.  For the candidates
    totalPointsAgainst, pointsAgainst and an array that holds only
    pointsAgainst with value 310, the result is 310. *)
Theorem getStat_first_match (parseFloat : string -> option number) :
  (forall stats names,
      (forall n x, In n names -> In x stats -> stat_matches n x = false) ->
      getStat parseFloat stats names = 0)
  /\ (forall pre n post before s after,
         (forall n' x, In n' pre -> In x (before ++ s :: after) ->
                       stat_matches n' x = false) ->
         (forall x, In x before -> stat_matches n x = false) ->
         stat_matches n s = true ->
         getStat parseFloat (before ++ s :: after) (pre ++ n :: post)
         = stat_number parseFloat s
         /\ (~ stat_value s == 0 -> stat_number parseFloat s = stat_value s)
         /\ (stat_value s == 0 -> parseFloat (stat_displayValue s) = None ->
             stat_number parseFloat s = 0)
         /\ (stat_value s == 0 ->
             forall q, parseFloat (stat_displayValue s) = Some q ->
                       stat_number parseFloat s = if Qeq_bool q 0 then 0 else q))
  /\ getStat parseFloat [standingsStat "pointsAgainst" 310]
       ["totalPointsAgainst"; "pointsAgainst"] = 310.
Proof.
  split; [|split].
  - intros stats names Hno.
    rewrite <- (app_nil_r names), getStat_skip by exact Hno. reflexivity.
  - intros pre n post before s after Hpre Hbefore Hs.
    pose proof (stat_number_cases parseFloat s) as [Hv Hz].
    split; [|split; [|split]].
    + rewrite getStat_skip by exact Hpre. simpl.
      rewrite (find_first _ before after s Hbefore Hs). reflexivity.
    + exact Hv.
    + intros H0 Hnan. specialize (Hz H0). rewrite Hnan in Hz. exact Hz.
    + intros H0 q Hq. specialize (Hz H0). rewrite Hq in Hz.
      destruct (Qeq_bool q 0); exact Hz.
  - reflexivity.
Qed.

Lemma getStat_first_match_witness :
  getStat parseFloat_NaN
    ([standingsStat "wins" 11] ++ standingsStat "pointsAgainst" 310 :: [])
    (["totalPointsAgainst"] ++ "pointsAgainst" :: ["PA"])
  = stat_number parseFloat_NaN (standingsStat "pointsAgainst" 310)
  /\ stat_number parseFloat_NaN (standingsStat "pointsAgainst" 310) = 310.
Proof.
  destruct (proj1 (proj2 (getStat_first_match parseFloat_NaN))
              ["totalPointsAgainst"] "pointsAgainst" ["PA"]
              [standingsStat "wins" 11] (standingsStat "pointsAgainst" 310) [])
    as [Hget [Hval _]].
  - intros n' x [<-|[]] [<-|[<-|[]]]; reflexivity.
  - intros x [<-|[]]. reflexivity.
  - reflexivity.
  - split; [exact Hget|]. apply Hval. vm_compute. discriminate.
Defined.

(** ** Per-game fields *)


Lemma perGame_not_positive (total gamesPlayed : number) :
  gamesPlayed <= 0 -> perGame total gamesPlayed = 0.
Proof.
  intros H. unfold perGame, gt.
  apply Qle_bool_iff in H. rewrite H. reflexivity.
Qed.

(** [gamesPlayed] as the extractor derives it is never zero, and it is
    positive when the wins and losses of the entry are not negative. *)
Lemma teamOfEntry_gamesPlayed parseFloat entry :
  let stats := match entry_stats entry with Some l => l | None => [] end in
  ~ st_gamesPlayed (teamOfEntry parseFloat entry) == 0
  /\ (0 <= getStat parseFloat stats ["wins"; "W"] ->
      0 <= getStat parseFloat stats ["losses"; "L"] ->
      0 < st_gamesPlayed (teamOfEntry parseFloat entry)).
Proof.
  intros stats. cbn [teamOfEntry st_gamesPlayed]. fold stats.
  unfold or_number, truthy.
  destruct (Qeq_bool (getStat parseFloat stats ["wins"; "W"]
                      + getStat parseFloat stats ["losses"; "L"]) 0) eqn:E;
    cbn [negb].
  - split; [intros H; vm_compute in H; discriminate H | intros _ _; reflexivity].
  - apply Qeq_bool_neq in E. split; [exact E|]. intros Hw Hl.
    destruct (Qlt_le_dec 0 (getStat parseFloat stats ["wins"; "W"]
                            + getStat parseFloat stats ["losses"; "L"]))
      as [Hlt|Hle]; [exact Hlt|].
    exfalso. apply E. lra.
Qed.

(** The fields [mergeStatistics] never assigns. *)
Lemma mergeStatistics_keeps t base data :
  team (mergeStatistics t base data) = team base
  /\ fullName (mergeStatistics t base data) = fullName base
  /\ logo (mergeStatistics t base data) = logo base
  /\ pointsAllowed (mergeStatistics t base data) = pointsAllowed base
  /\ dvoa (mergeStatistics t base data) = dvoa base.
Proof.
  unfold mergeStatistics.
  repeat match goal with
         | |- context [if ?b then _ else _] => destruct b
         end; repeat split.
Qed.





(** ** Running the route *)

Lemma fetchTeamDetailedStats_run t up log :
  fetchTeamDetailedStats t up log
  = (Normal (settled up t), (log ++ [statisticsUrl (st_id t)])%list).
Proof.
  unfold fetchTeamDetailedStats, settled, try_catch, bind, fetch, json, ret, throw.
  destruct (up (statisticsUrl (st_id t))) as [|r]; [reflexivity|].
  destruct (ok r); simpl; [|reflexivity].
  destruct (body r); reflexivity.
Qed.

Lemma Promise_all_run teams up log :
  Promise_all (map fetchTeamDetailedStats teams) up log
  = (Normal (map (settled up) teams),
     (log ++ map (fun t => statisticsUrl (st_id t)) teams)%list).
Proof.
  revert log. induction teams as [|t teams IH]; intros log; simpl.
  - rewrite app_nil_r. reflexivity.
  - rewrite fetchTeamDetailedStats_run, IH, <- app_assoc. reflexivity.
Qed.

Section Running.

Variable parseFloat : string -> option number.
Variables (now : string) (up : Upstream) (log : list string).

Lemma GET_rejected :
  up standingsUrl = NetworkFailure ->
  GET parseFloat now up log
  = (Normal (errorReply "Failed to fetch NFL statistics"),
     (log ++ [standingsUrl])%list).
Proof.
  intros H. unfold GET, try_catch, bind, fetch. rewrite H. reflexivity.
Qed.

Lemma GET_not_ok r :
  up standingsUrl = Responds r -> ok r = false ->
  GET parseFloat now up log
  = (Normal (errorReply "Failed to fetch standings"),
     (log ++ [standingsUrl])%list).
Proof.
  intros H Hok. unfold GET, try_catch, bind, fetch. rewrite H, Hok. reflexivity.
Qed.

Lemma GET_no_document r :
  up standingsUrl = Responds r -> ok r = true -> body r = None ->
  GET parseFloat now up log
  = (Normal (errorReply "Failed to fetch NFL statistics"),
     (log ++ [standingsUrl])%list).
Proof.
  intros H Hok Hb. unfold GET, try_catch, bind, fetch, json.
  rewrite H, Hok, Hb. reflexivity.
Qed.

Lemma GET_no_teams r d :
  up standingsUrl = Responds r -> ok r = true -> body r = Some d ->
  extractTeamsFromStandings parseFloat (asStandings d) = [] ->
  GET parseFloat now up log
  = (Normal (errorReply "No teams found in standings"),
     (log ++ [standingsUrl])%list).
Proof.
  intros H Hok Hb He. unfold GET, try_catch, bind, fetch, json.
  rewrite H, Hok, Hb. simpl. rewrite He. reflexivity.
Qed.

Lemma GET_teams r d :
  up standingsUrl = Responds r -> ok r = true -> body r = Some d ->
  extractTeamsFromStandings parseFloat (asStandings d) <> [] ->
  GET parseFloat now up log
  = (Normal
       {| status := 200;
          envelope :=
            {| env_error := None;
               env_stats :=
                 computeEfficiencyRating
                   (map (settled up)
                        (extractTeamsFromStandings parseFloat (asStandings d)));
               env_lastUpdated := Some now;
               env_source := Some "ESPN API - 2024 Season" |} |},
     (log ++ standingsUrl
          :: map (fun t => statisticsUrl (st_id t))
                 (extractTeamsFromStandings parseFloat (asStandings d)))%list).
Proof.
  intros H Hok Hb He. unfold GET, try_catch, bind, fetch, json.
  rewrite H, Hok, Hb. simpl.
  destruct (extractTeamsFromStandings parseFloat (asStandings d)) as [|t ts] eqn:E;
    [contradiction|].
  cbn [List.length Nat.eqb]. rewrite Promise_all_run. unfold ret.
  rewrite <- app_assoc. reflexivity.
Qed.

End Running.

(** ** The records of a reply *)

Lemma settled_keeps up t :
  team (settled up t) = st_abbr t
  /\ fullName (settled up t) = st_fullName t
  /\ logo (settled up t) = st_logo t
  /\ pointsAllowed (settled up t) = perGame (st_pointsAllowed t) (st_gamesPlayed t).
Proof.
  unfold settled.
  destruct (up (statisticsUrl (st_id t))) as [|r]; [repeat split|].
  destruct (negb (ok r)); [repeat split|].
  destruct (body r) as [d|]; [|repeat split].
  pose proof (mergeStatistics_keeps t (baseRecord t) (asStatistics d))
    as (-> & -> & -> & -> & _).
  repeat split.
Qed.

Lemma settled_failed up t :
  fetchFails (up (statisticsUrl (st_id t))) -> settled up t = baseRecord t.
Proof.
  unfold settled, fetchFails.
  destruct (up (statisticsUrl (st_id t))) as [|r]; [reflexivity|].
  intros [-> | ->]; [reflexivity|].
  destruct (negb (ok r)); reflexivity.
Qed.

(** The record at each index is the record that was there, with a new
    dvoa. *)
Lemma computeEfficiencyRating_nth teams i t :
  nth_error teams i = Some t ->
  exists v, nth_error (computeEfficiencyRating teams) i = Some (set_dvoa t v).
Proof.
  intros Hi. destruct teams as [|t0 rest]; [destruct i; discriminate|].
  rewrite computeEfficiencyRating_cons.
  eexists. rewrite (map_nth_error _ _ _ Hi). reflexivity.
Qed.

Lemma computeEfficiencyRating_teams teams :
  map team (computeEfficiencyRating teams) = map team teams.
Proof.
  destruct teams as [|t0 rest]; [reflexivity|].
  rewrite computeEfficiencyRating_cons, map_map. reflexivity.
Qed.

Lemma computeEfficiencyRating_length teams :
  List.length (computeEfficiencyRating teams) = List.length teams.
Proof.
  destruct teams as [|t0 rest]; [reflexivity|].
  rewrite computeEfficiencyRating_cons. apply length_map.
Qed.

Lemma extractTeamsFromStandings_entries parseFloat data :
  extractTeamsFromStandings parseFloat data
  = map (teamOfEntry parseFloat) (standingsEntries data).
Proof.
  unfold extractTeamsFromStandings, standingsEntries.
  destruct (children data) as [conferences|]; [|reflexivity].
  induction conferences as [|c cs IH]; simpl; [reflexivity|].
  rewrite map_app, IH. destruct (standings c); reflexivity.
Qed.

(** C4: when the statistics fetch of a team fails or throws, the batch is
    not aborted: the reply is a success whose list holds a record for
    every team extracted from the standings, in order; each record has
    the identity fields and the per-game pointsAllowed of its team, and
    the record of a team whose fetch failed has yardsAllowed,
    passYardsAllowed, rushYardsAllowed, sacks, interceptions and fumbles
    equal to 0. *)
Theorem GET_batch_resilience (parseFloat : string -> option number)
    (now : string) (up : Upstream) (r : Response) (d : Document) :
  up standingsUrl = Responds r -> ok r = true -> body r = Some d ->
  extractTeamsFromStandings parseFloat (asStandings d) <> [] ->
  exists reply log',
    GET parseFloat now up [] = (Normal reply, log')
    /\ status reply = 200%nat
    /\ env_error (envelope reply) = None
    /\ List.length (env_stats (envelope reply))
       = List.length (extractTeamsFromStandings parseFloat (asStandings d))
    /\ forall i t,
         nth_error (extractTeamsFromStandings parseFloat (asStandings d)) i = Some t ->
         exists rec,
           nth_error (env_stats (envelope reply)) i = Some rec
           /\ team rec = st_abbr t
           /\ fullName rec = st_fullName t
           /\ logo rec = st_logo t
           /\ pointsAllowed rec = perGame (st_pointsAllowed t) (st_gamesPlayed t)
           /\ (fetchFails (up (statisticsUrl (st_id t))) ->
               yardsAllowed rec = 0 /\ passYardsAllowed rec = 0
               /\ rushYardsAllowed rec = 0 /\ sacks rec = 0
               /\ interceptions rec = 0 /\ fumbles rec = 0).
Proof.
  intros Hup Hok Hbody Hne.
  eexists _, _. split; [apply (GET_teams parseFloat now up [] r d); assumption|].
  cbn [status envelope env_error env_stats].
  split; [reflexivity|]. split; [reflexivity|]. split.
  - rewrite computeEfficiencyRating_length. apply length_map.
  - intros i t Hi.
    destruct (computeEfficiencyRating_nth
                (map (settled up)
                     (extractTeamsFromStandings parseFloat (asStandings d)))
                i (settled up t) (map_nth_error _ _ _ Hi)) as [v Hv].
    exists (set_dvoa (settled up t) v). split; [exact Hv|].
    destruct (settled_keeps up t) as (Ht & Hf & Hl & Hp).
    cbn [set_dvoa team fullName logo pointsAllowed yardsAllowed passYardsAllowed
         rushYardsAllowed sacks interceptions fumbles].
    repeat (split; [assumption|]).
    intros Hfail. rewrite (settled_failed up t Hfail). repeat split.
Qed.

Lemma GET_batch_resilience_witness :
  exists reply log',
    GET parseFloat_NaN "2025-01-06T00:00:00.000Z" mixedUpstream [] = (Normal reply, log')
    /\ status reply = 200%nat
    /\ List.length (env_stats (envelope reply)) = 2%nat
    /\ exists rec,
         nth_error (env_stats (envelope reply)) 1 = Some rec
         /\ team rec = "DAL"
         /\ pointsAllowed rec = perGame 468 (7 + 10)
         /\ yardsAllowed rec = 0 /\ sacks rec = 0
         /\ interceptions rec = 0 /\ fumbles rec = 0.
Proof.
  destruct (GET_batch_resilience parseFloat_NaN "2025-01-06T00:00:00.000Z"
              mixedUpstream
              {| ok := true;
                 body := Some (standingsOf [standingsEntry "21" "PHI" 14 3 303;
                                            standingsEntry "6" "DAL" 7 10 468]) |}
              (standingsOf [standingsEntry "21" "PHI" 14 3 303;
                            standingsEntry "6" "DAL" 7 10 468]))
    as (reply & log' & Hrun & Hstatus & _ & Hlen & Hrec).
  - reflexivity.
  - reflexivity.
  - reflexivity.
  - intros H. vm_compute in H. discriminate H.
  - exists reply, log'. split; [exact Hrun|]. split; [exact Hstatus|].
    split; [exact Hlen|].
    destruct (Hrec 1%nat
                {| st_id := "6"; st_abbr := "DAL"; st_fullName := "DAL";
                   st_logo := ""; st_pointsAllowed := 468;
                   st_gamesPlayed := 7 + 10 |} eq_refl)
      as (rec & Hnth & Hteam & _ & _ & Hpts & Hzero).
    destruct (Hzero I) as (Hy & _ & _ & Hs & Hi & Hf).
    exists rec. repeat (split; [assumption|]). assumption.
Defined.

(** C5: when the standings fetch answers with a status that is not a
    success, or the list of teams extracted from the standings is empty,
    the request fails as a whole: the reply has status 500 and the
    envelope holds an error message and an empty stats list and nothing
    else, and the standings request is the only request made. *)
Theorem GET_primary_failure (parseFloat : string -> option number)
    (now : string) (up : Upstream) (r : Response) :
  up standingsUrl = Responds r ->
  ok r = false
  \/ (exists d, body r = Some d
                /\ extractTeamsFromStandings parseFloat (asStandings d) = []) ->
  exists message,
    GET parseFloat now up []
    = (Normal {| status := 500;
                 envelope := {| env_error := Some message; env_stats := [];
                                env_lastUpdated := None; env_source := None |} |},
       [standingsUrl])
    /\ ~ (200 <= 500 < 300)%nat.
Proof.
  intros Hup Hfail.
  destruct (ok r) eqn:Hok.
  - destruct Hfail as [Habs | (d & Hbody & Hnone)]; [discriminate|].
    eexists. split; [|lia].
    apply (GET_no_teams parseFloat now up [] r d); assumption.
  - eexists. split; [|lia].
    apply (GET_not_ok parseFloat now up [] r); assumption.
Qed.

Lemma GET_primary_failure_witness :
  exists message,
    GET parseFloat_NaN "2025-01-06T00:00:00.000Z" failingUpstream []
    = (Normal {| status := 500;
                 envelope := {| env_error := Some message; env_stats := [];
                                env_lastUpdated := None; env_source := None |} |},
       [standingsUrl])
    /\ ~ (200 <= 500 < 300)%nat.
Proof.
  apply (GET_primary_failure parseFloat_NaN "2025-01-06T00:00:00.000Z"
           failingUpstream {| ok := false; body := None |}).
  - reflexivity.
  - left. reflexivity.
Defined.

(** C8, as stated, fails: with standings that list the entry of one team
    under two conference groups the reply is a success and its records
    repeat the team code. *)
Lemma duplicate_team_counterexample :
  exists reply log',
    GET parseFloat_NaN "2025-01-06T00:00:00.000Z" (upstreamOf duplicatedStandings) []
    = (Normal reply, log')
    /\ status reply = 200%nat
    /\ map team (env_stats (envelope reply)) = ["PHI"; "DAL"; "PHI"]
    /\ ~ NoDup (map team (env_stats (envelope reply))).
Proof.
  eexists _, _. split.
  - apply (GET_teams parseFloat_NaN _ (upstreamOf duplicatedStandings) []
             {| ok := true; body := Some duplicatedStandings |} duplicatedStandings);
      try reflexivity.
    intros H. vm_compute in H. discriminate H.
  - cbn [status envelope env_stats].
    rewrite computeEfficiencyRating_teams.
    split; [reflexivity|]. split; [reflexivity|].
    intros H. change (NoDup ["PHI"; "DAL"; "PHI"]) in H.
    inversion H as [|x l Hnotin _]; subst.
    apply Hnotin. right; left; reflexivity.
Qed.

(** C8, as amended: a successful reply holds exactly one record per entry
    of the standings, in the order of the entries, and the team field of
    the record is the abbreviation of its entry; no record stands for a
    team without an entry.  The team field is unique across the list
    exactly when the abbreviations of the entries are. *)
Theorem GET_one_record_per_entry (parseFloat : string -> option number)
    (now : string) (up : Upstream) (r : Response) (d : Document) :
  up standingsUrl = Responds r -> ok r = true -> body r = Some d ->
  standingsEntries (asStandings d) <> [] ->
  exists reply log',
    GET parseFloat now up [] = (Normal reply, log')
    /\ status reply = 200%nat
    /\ map team (env_stats (envelope reply))
       = map (fun e => team_abbreviation (entry_team e))
             (standingsEntries (asStandings d))
    /\ (NoDup (map team (env_stats (envelope reply)))
        <-> NoDup (map (fun e => team_abbreviation (entry_team e))
                       (standingsEntries (asStandings d)))).
Proof.
  intros Hup Hok Hbody Hne.
  assert (Hteams : extractTeamsFromStandings parseFloat (asStandings d) <> []).
  { rewrite extractTeamsFromStandings_entries.
    destruct (standingsEntries (asStandings d)); [contradiction | discriminate]. }
  assert (Hmap :
    map team (computeEfficiencyRating
                (map (settled up)
                     (extractTeamsFromStandings parseFloat (asStandings d))))
    = map (fun e => team_abbreviation (entry_team e))
          (standingsEntries (asStandings d))).
  { rewrite computeEfficiencyRating_teams, extractTeamsFromStandings_entries,
      !map_map.
    apply map_ext. intros e. apply (settled_keeps up (teamOfEntry parseFloat e)). }
  eexists _, _. split; [apply (GET_teams parseFloat now up [] r d); assumption|].
  cbn [status envelope env_stats].
  split; [reflexivity|]. split; [exact Hmap|].
  rewrite Hmap. reflexivity.
Qed.

Lemma GET_one_record_per_entry_witness :
  exists reply log',
    GET parseFloat_NaN "2025-01-06T00:00:00.000Z" mixedUpstream [] = (Normal reply, log')
    /\ status reply = 200%nat
    /\ map team (env_stats (envelope reply)) = ["PHI"; "DAL"].
Proof.
  destruct (GET_one_record_per_entry parseFloat_NaN "2025-01-06T00:00:00.000Z"
              mixedUpstream
              {| ok := true;
                 body := Some (standingsOf [standingsEntry "21" "PHI" 14 3 303;
                                            standingsEntry "6" "DAL" 7 10 468]) |}
              (standingsOf [standingsEntry "21" "PHI" 14 3 303;
                            standingsEntry "6" "DAL" 7 10 468]))
    as (reply & log' & Hrun & Hstatus & Hmap & _).
  - reflexivity.
  - reflexivity.
  - reflexivity.
  - discriminate.
  - exists reply, log'. split; [exact Hrun|]. split; [exact Hstatus | exact Hmap].
Defined.

(** ** Runs of the route *)

Lemma poolRun_trans up p q r : poolRun up p q -> poolRun up q r -> poolRun up p r.
Proof.
  induction 1 as [p | p q' q Hstep _ IH]; intros Hqr; [exact Hqr|].
  eapply run_next; [exact Hstep | apply IH, Hqr].
Qed.

(** A step of a task keeps what its state records of the upstream. *)
Lemma taskStep_inv up t st st' lines :
  taskInv up (t, st) -> taskStep up t st = (st', lines) -> taskInv up (t, st').
Proof.
  unfold taskInv, taskStep, settled. cbn [fst snd].
  destruct st as [| res | record].
  - intros _.
    destruct (up (statisticsUrl (st_id t))) as [|res] eqn:Hup.
    + intros H. injection H as <- _. reflexivity.
    + destruct (negb (ok res)) eqn:Hok; intros H; injection H as <- _.
      * reflexivity.
      * split; [reflexivity|]. apply negb_false_iff, Hok.
  - intros [Hup Hok]. rewrite Hup, Hok. cbn [negb].
    destruct (body res); intros H; injection H as <- _; reflexivity.
  - intros Hrec H. injection H as <- _. exact Hrec.
Qed.

Lemma poolStep_inv up p q :
  poolStep up p q ->
  Forall (taskInv up) (tasks p) ->
  Forall (taskInv up) (tasks q) /\ map fst (tasks q) = map fst (tasks p).
Proof.
  intros Hstep Hinv. destruct Hstep as [before t st after out st' lines _ Hts].
  cbn [tasks] in *. split.
  - apply Forall_app in Hinv as [Hb Ha].
    apply Forall_app. split; [exact Hb|].
    inversion Ha as [|? ? Ht Hafter]; subst.
    constructor; [|exact Hafter].
    apply (taskStep_inv up t st st' lines Ht Hts).
  - rewrite !map_app. reflexivity.
Qed.

Lemma poolRun_inv up p q :
  poolRun up p q ->
  Forall (taskInv up) (tasks p) ->
  Forall (taskInv up) (tasks q) /\ map fst (tasks q) = map fst (tasks p).
Proof.
  induction 1 as [p | p q r Hstep _ IH]; intros Hinv; [split; [exact Hinv | reflexivity]|].
  destruct (poolStep_inv up p q Hstep Hinv) as [Hq Hfst].
  destruct (IH Hq) as [Hr Hfst']. split; [exact Hr|]. congruence.
Qed.

Lemma resolved_records up (ts : list (StandingsTeam * TaskState))
    (records : list TeamDefenseStats) :
  Forall (taskInv up) ts -> map snd ts = map Resolved records ->
  records = map (settled up) (map fst ts).
Proof.
  revert records. induction ts as [|[t st] ts IH]; intros records Hinv Hmap.
  - destruct records; [reflexivity | discriminate].
  - destruct records as [|r records]; [discriminate|].
    cbn [map fst snd] in *. injection Hmap as Hst Hrest.
    inversion Hinv as [|? ? Ht Hts]; subst.
    unfold taskInv in Ht. cbn [fst snd] in Ht. rewrite Ht.
    f_equal. apply IH; assumption.
Qed.

(** However the steps of the tasks are ordered, the records
    [Promise.all] resolves with are the ones each task alone resolves
    to. *)
Lemma poolRun_records up teams final records :
  poolRun up (startAll teams) final ->
  map snd (tasks final) = map Resolved records ->
  records = map (settled up) teams.
Proof.
  intros Hrun Hres.
  assert (Hstart : Forall (taskInv up) (tasks (startAll teams))).
  { unfold startAll. cbn [tasks]. apply Forall_map, Forall_forall.
    intros t _. exact I. }
  destruct (poolRun_inv up _ _ Hrun Hstart) as [Hinv Hfst].
  rewrite (resolved_records up _ _ Hinv Hres), Hfst.
  unfold startAll. cbn [tasks]. rewrite map_map.
  f_equal. clear. induction teams as [|t teams IH]; [reflexivity|].
  cbn [map fst]. rewrite <- IH. reflexivity.
Qed.

(** One task run to its end while the others wait. *)
Lemma task_completes up before t after out :
  exists out',
    poolRun up
      {| tasks := (before ++ (t, AwaitingResponse) :: after)%list; console := out |}
      {| tasks := (before ++ (t, Resolved (settled up t)) :: after)%list;
         console := out' |}.
Proof.
  unfold settled.
  destruct (up (statisticsUrl (st_id t))) as [|res] eqn:Hup.
  - eexists. eapply run_next; [|apply run_here].
    apply step_task; [reflexivity|]. cbn [taskStep]. rewrite Hup. reflexivity.
  - destruct (negb (ok res)) eqn:Hok.
    + eexists. eapply run_next; [|apply run_here].
      apply step_task; [reflexivity|]. cbn [taskStep]. rewrite Hup, Hok. reflexivity.
    + destruct (body res) as [data|] eqn:Hbody; eexists.
      * eapply run_next.
        { apply (step_task up before t AwaitingResponse after out (AwaitingBody res) []);
            [reflexivity|]. cbn [taskStep]. rewrite Hup, Hok. reflexivity. }
        eapply run_next; [|apply run_here].
        apply step_task; [reflexivity|]. cbn [taskStep]. rewrite Hbody. reflexivity.
      * eapply run_next.
        { apply (step_task up before t AwaitingResponse after out (AwaitingBody res) []);
            [reflexivity|]. cbn [taskStep]. rewrite Hup, Hok. reflexivity. }
        eapply run_next; [|apply run_here].
        apply step_task; [reflexivity|]. cbn [taskStep]. rewrite Hbody. reflexivity.
Qed.

Lemma pool_completes up todo : forall done out,
  exists out',
    poolRun up
      {| tasks := (done ++ map (fun t => (t, AwaitingResponse)) todo)%list;
         console := out |}
      {| tasks := (done ++ map (fun t => (t, Resolved (settled up t))) todo)%list;
         console := out' |}.
Proof.
  induction todo as [|t todo IH]; intros done out.
  - exists out. apply run_here.
  - cbn [map].
    destruct (task_completes up done t
                (map (fun t => (t, AwaitingResponse)) todo) out) as [out1 H1].
    destruct (IH (done ++ [(t, Resolved (settled up t))])%list out1) as [out2 H2].
    exists out2. eapply poolRun_trans; [exact H1|].
    rewrite <- !app_assoc in H2. exact H2.
Qed.

(** Every run gives the reply of [GET]. *)
Lemma GET_run_reply parseFloat now up reply lines :
  GET_run parseFloat now up reply lines ->
  fst (GET parseFloat now up []) = Normal reply.
Proof.
  intros Hrun. destruct Hrun as [Hup | r Hup Hok | r Hup Hok Hbody
                                 | r d Hup Hok Hbody He
                                 | r d final records Hup Hok Hbody Hne Hpool Hres].
  - rewrite (GET_rejected parseFloat now up [] Hup). reflexivity.
  - rewrite (GET_not_ok parseFloat now up [] r Hup Hok). reflexivity.
  - rewrite (GET_no_document parseFloat now up [] r Hup Hok Hbody). reflexivity.
  - rewrite (GET_no_teams parseFloat now up [] r d Hup Hok Hbody He). reflexivity.
  - rewrite (GET_teams parseFloat now up [] r d Hup Hok Hbody Hne).
    rewrite (poolRun_records up _ final records Hpool Hres). reflexivity.
Qed.

Lemma GET_run_exists parseFloat now up :
  exists reply lines, GET_run parseFloat now up reply lines.
Proof.
  destruct (up standingsUrl) as [|r] eqn:Hup.
  - eexists _, _. apply GET_run_rejected, Hup.
  - destruct (ok r) eqn:Hok.
    + destruct (body r) as [d|] eqn:Hbody.
      * destruct (extractTeamsFromStandings parseFloat (asStandings d))
          as [|t ts] eqn:He.
        -- eexists _, _. apply (GET_run_no_teams _ _ _ r d); assumption.
        -- destruct (pool_completes up (t :: ts) [] []) as [out Hpool].
           eexists _, _.
           apply (GET_run_teams parseFloat now up r d
                    {| tasks := map (fun t => (t, Resolved (settled up t))) (t :: ts);
                       console := out |}
                    (map (settled up) (t :: ts))); try assumption.
           ++ rewrite He. discriminate.
           ++ rewrite He. exact Hpool.
           ++ cbn [tasks]. rewrite !map_map. reflexivity.
      * eexists _, _. apply (GET_run_no_document _ _ _ r); assumption.
    + eexists _, _. apply (GET_run_not_ok _ _ _ r); assumption.
Qed.

(** The reply of [GET] at two times of day. *)
Lemma GET_replies parseFloat up now1 now2 :
  exists r1 r2,
    fst (GET parseFloat now1 up []) = Normal r1
    /\ fst (GET parseFloat now2 up []) = Normal r2
    /\ ((exists message, r1 = errorReply message /\ r2 = errorReply message)
        \/ (exists stats source,
              r1 = {| status := 200;
                      envelope := {| env_error := None; env_stats := stats;
                                     env_lastUpdated := Some now1;
                                     env_source := Some source |} |}
              /\ r2 = {| status := 200;
                         envelope := {| env_error := None; env_stats := stats;
                                        env_lastUpdated := Some now2;
                                        env_source := Some source |} |})).
Proof.
  destruct (up standingsUrl) as [|r] eqn:Hup.
  - eexists _, _. rewrite !GET_rejected by exact Hup.
    split; [reflexivity|]. split; [reflexivity|].
    left. eexists. split; reflexivity.
  - destruct (ok r) eqn:Hok.
    + destruct (body r) as [d|] eqn:Hbody.
      * destruct (extractTeamsFromStandings parseFloat (asStandings d))
          as [|t ts] eqn:He.
        -- eexists _, _. rewrite !(GET_no_teams _ _ _ _ r d) by assumption.
           split; [reflexivity|]. split; [reflexivity|].
           left. eexists. split; reflexivity.
        -- assert (Hne : extractTeamsFromStandings parseFloat (asStandings d) <> [])
             by (rewrite He; discriminate).
           eexists _, _. rewrite !(GET_teams _ _ _ _ r d) by assumption.
           split; [reflexivity|]. split; [reflexivity|].
           right. eexists _, _. split; reflexivity.
      * eexists _, _. rewrite !(GET_no_document _ _ _ _ r) by assumption.
        split; [reflexivity|]. split; [reflexivity|].
        left. eexists. split; reflexivity.
    + eexists _, _. rewrite !(GET_not_ok _ _ _ _ r) by assumption.
      split; [reflexivity|]. split; [reflexivity|].
      left. eexists. split; reflexivity.
Qed.

Lemma string_app_assoc (a b c : string) : ((a ++ b) ++ c = a ++ (b ++ c))%string.
Proof. induction a as [|x a IH]; simpl; [reflexivity | rewrite IH; reflexivity]. Qed.

Lemma string_app_nil_r (a : string) : (a ++ "" = a)%string.
Proof. induction a as [|x a IH]; simpl; [reflexivity | rewrite IH; reflexivity]. Qed.

(** The bytes of a success envelope: the stamp between a prefix and a
    suffix that do not hold it. *)
Lemma stringifyEnvelope_success JSON_number JSON_string stats stamp source :
  stringifyEnvelope JSON_number JSON_string
    {| env_error := None; env_stats := stats;
       env_lastUpdated := Some stamp; env_source := Some source |}
  = (("{" ++ JSON_member JSON_string "stats"
               (JSON_array (map (stringifyRecord JSON_number JSON_string) stats))
          ++ "," ++ JSON_string "lastUpdated" ++ ":")
     ++ JSON_string stamp
     ++ ("," ++ JSON_member JSON_string "source" (JSON_string source) ++ "}"))%string.
Proof.
  unfold stringifyEnvelope, JSON_object.
  cbn [env_error env_stats env_lastUpdated env_source app String.concat].
  unfold JSON_member at 2.
  rewrite !string_app_assoc. reflexivity.
Qed.

(** C9: every run of the route on the same upstream (the same standings
    document and the same statistics documents), whatever the order in
    which the per-team fetches settle and whatever the time of day,
    gives the same status and the same envelope but for lastUpdated, and
    the bytes of the two bodies are a common prefix and a common suffix
    around the bytes of the stamp; and the route has a run on every
    upstream. *)
Theorem GET_runs_agree (parseFloat : string -> option number)
    (JSON_number : number -> string) (JSON_string : string -> string)
    (up : Upstream) (now1 now2 : string) :
  (exists reply lines, GET_run parseFloat now1 up reply lines)
  /\ (forall r1 lines1 r2 lines2,
         GET_run parseFloat now1 up r1 lines1 ->
         GET_run parseFloat now2 up r2 lines2 ->
         status r1 = status r2
         /\ same_except_lastUpdated r1 r2
         /\ (env_lastUpdated (envelope r1) = None
             /\ env_lastUpdated (envelope r2) = None
             \/ env_lastUpdated (envelope r1) = Some now1
                /\ env_lastUpdated (envelope r2) = Some now2)
         /\ exists pre suf,
              stringifyEnvelope JSON_number JSON_string (envelope r1)
              = (pre ++ lastUpdatedBytes JSON_string (envelope r1) ++ suf)%string
              /\ stringifyEnvelope JSON_number JSON_string (envelope r2)
                 = (pre ++ lastUpdatedBytes JSON_string (envelope r2) ++ suf)%string).
Proof.
  split; [apply GET_run_exists|].
  intros r1 lines1 r2 lines2 H1 H2.
  apply GET_run_reply in H1, H2.
  destruct (GET_replies parseFloat up now1 now2) as (q1 & q2 & E1 & E2 & Hcase).
  rewrite E1 in H1. rewrite E2 in H2. injection H1 as <-. injection H2 as <-.
  destruct Hcase as [(message & -> & ->) | (stats & source & -> & ->)].
  - split; [reflexivity|]. split; [repeat split|].
    split; [left; split; reflexivity|].
    exists (stringifyEnvelope JSON_number JSON_string (envelope (errorReply message))),
           ""%string.
    cbn [lastUpdatedBytes errorReply envelope env_lastUpdated].
    rewrite string_app_nil_r. split; reflexivity.
  - split; [reflexivity|]. split; [repeat split|].
    split; [right; split; reflexivity|].
    eexists _, _. cbn [envelope lastUpdatedBytes env_lastUpdated].
    split; apply stringifyEnvelope_success.
Qed.

Lemma GET_runs_agree_witness :
  let PHI_team := teamOfEntry parseFloat_NaN (standingsEntry "21" "PHI" 14 3 303) in
  let DAL_team := teamOfEntry parseFloat_NaN (standingsEntry "6" "DAL" 7 10 468) in
  let stats :=
    computeEfficiencyRating
      [settled mixedUpstream PHI_team; settled mixedUpstream DAL_team] in
  let reply stamp :=
    {| status := 200%nat;
       envelope := {| env_error := None; env_stats := stats;
                      env_lastUpdated := Some stamp;
                      env_source := Some "ESPN API - 2024 Season" |} |} in
  let r1 := reply "2025-01-05T18:00:00.000Z" in
  let r2 := reply "2025-01-06T09:30:00.000Z" in
  GET_run parseFloat_NaN "2025-01-05T18:00:00.000Z" mixedUpstream r1
    [taskError DAL_team]
  /\ GET_run parseFloat_NaN "2025-01-06T09:30:00.000Z" mixedUpstream r2
       [taskError DAL_team]
  /\ status r1 = status r2
  /\ same_except_lastUpdated r1 r2
  /\ (env_lastUpdated (envelope r1) = None
      /\ env_lastUpdated (envelope r2) = None
      \/ env_lastUpdated (envelope r1) = Some "2025-01-05T18:00:00.000Z"
         /\ env_lastUpdated (envelope r2) = Some "2025-01-06T09:30:00.000Z")
  /\ exists pre suf,
       stringifyEnvelope sampleJSONNumber sampleJSONString (envelope r1)
       = (pre ++ lastUpdatedBytes sampleJSONString (envelope r1) ++ suf)%string
       /\ stringifyEnvelope sampleJSONNumber sampleJSONString (envelope r2)
          = (pre ++ lastUpdatedBytes sampleJSONString (envelope r2) ++ suf)%string.
Proof.
  intros PHI_team DAL_team stats reply r1 r2.
  pose (doc := standingsOf [standingsEntry "21" "PHI" 14 3 303;
                            standingsEntry "6" "DAL" 7 10 468]).
  pose (res := {| ok := true; body := Some sampleStatistics |}).
  (* the response of PHI, the rejection of DAL, the body of PHI *)
  assert (H1 : GET_run parseFloat_NaN "2025-01-05T18:00:00.000Z" mixedUpstream r1
                 [taskError DAL_team]).
  { apply (GET_run_teams parseFloat_NaN "2025-01-05T18:00:00.000Z" mixedUpstream
             {| ok := true; body := Some doc |} doc
             {| tasks := [(PHI_team, Resolved (settled mixedUpstream PHI_team));
                          (DAL_team, Resolved (settled mixedUpstream DAL_team))];
                console := [taskError DAL_team] |}
             [settled mixedUpstream PHI_team; settled mixedUpstream DAL_team]).
    - reflexivity.
    - reflexivity.
    - reflexivity.
    - intros H. vm_compute in H. discriminate H.
    - apply (run_next mixedUpstream _
               {| tasks := [(PHI_team, AwaitingBody res);
                            (DAL_team, AwaitingResponse)];
                  console := [] |}).
      { exact (step_task mixedUpstream [] PHI_team AwaitingResponse
                 [(DAL_team, AwaitingResponse)] [] (AwaitingBody res) []
                 eq_refl eq_refl). }
      apply (run_next mixedUpstream _
               {| tasks := [(PHI_team, AwaitingBody res);
                            (DAL_team, Resolved (settled mixedUpstream DAL_team))];
                  console := [taskError DAL_team] |}).
      { exact (step_task mixedUpstream [(PHI_team, AwaitingBody res)] DAL_team
                 AwaitingResponse [] []
                 (Resolved (settled mixedUpstream DAL_team)) [taskError DAL_team]
                 eq_refl eq_refl). }
      apply (run_next mixedUpstream _
               {| tasks := [(PHI_team, Resolved (settled mixedUpstream PHI_team));
                            (DAL_team, Resolved (settled mixedUpstream DAL_team))];
                  console := [taskError DAL_team] |}).
      { exact (step_task mixedUpstream [] PHI_team (AwaitingBody res)
                 [(DAL_team, Resolved (settled mixedUpstream DAL_team))]
                 [taskError DAL_team]
                 (Resolved (settled mixedUpstream PHI_team)) []
                 eq_refl eq_refl). }
      apply run_here.
    - reflexivity. }
  (* the rejection of DAL, then the response and the body of PHI *)
  assert (H2 : GET_run parseFloat_NaN "2025-01-06T09:30:00.000Z" mixedUpstream r2
                 [taskError DAL_team]).
  { apply (GET_run_teams parseFloat_NaN "2025-01-06T09:30:00.000Z" mixedUpstream
             {| ok := true; body := Some doc |} doc
             {| tasks := [(PHI_team, Resolved (settled mixedUpstream PHI_team));
                          (DAL_team, Resolved (settled mixedUpstream DAL_team))];
                console := [taskError DAL_team] |}
             [settled mixedUpstream PHI_team; settled mixedUpstream DAL_team]).
    - reflexivity.
    - reflexivity.
    - reflexivity.
    - intros H. vm_compute in H. discriminate H.
    - apply (run_next mixedUpstream _
               {| tasks := [(PHI_team, AwaitingResponse);
                            (DAL_team, Resolved (settled mixedUpstream DAL_team))];
                  console := [taskError DAL_team] |}).
      { exact (step_task mixedUpstream [(PHI_team, AwaitingResponse)] DAL_team
                 AwaitingResponse [] []
                 (Resolved (settled mixedUpstream DAL_team)) [taskError DAL_team]
                 eq_refl eq_refl). }
      apply (run_next mixedUpstream _
               {| tasks := [(PHI_team, AwaitingBody res);
                            (DAL_team, Resolved (settled mixedUpstream DAL_team))];
                  console := [taskError DAL_team] |}).
      { exact (step_task mixedUpstream [] PHI_team AwaitingResponse
                 [(DAL_team, Resolved (settled mixedUpstream DAL_team))]
                 [taskError DAL_team] (AwaitingBody res) []
                 eq_refl eq_refl). }
      apply (run_next mixedUpstream _
               {| tasks := [(PHI_team, Resolved (settled mixedUpstream PHI_team));
                            (DAL_team, Resolved (settled mixedUpstream DAL_team))];
                  console := [taskError DAL_team] |}).
      { exact (step_task mixedUpstream [] PHI_team (AwaitingBody res)
                 [(DAL_team, Resolved (settled mixedUpstream DAL_team))]
                 [taskError DAL_team]
                 (Resolved (settled mixedUpstream PHI_team)) []
                 eq_refl eq_refl). }
      apply run_here.
    - reflexivity. }
  exact (conj H1 (conj H2
           (proj2 (GET_runs_agree parseFloat_NaN sampleJSONNumber sampleJSONString
                     mixedUpstream
                     "2025-01-05T18:00:00.000Z" "2025-01-06T09:30:00.000Z")
              r1 [taskError DAL_team] r2 [taskError DAL_team] H1 H2))).
Defined.

(** The order in which the fetches settle shows on the console, not in
    the reply: with both statistics requests rejected, the route has a
    run that reports PHI before DAL and a run that reports DAL before
    PHI, with one reply. *)
Lemma GET_run_settle_order :
  let PHI_team := teamOfEntry parseFloat_NaN (standingsEntry "21" "PHI" 14 3 303) in
  let DAL_team := teamOfEntry parseFloat_NaN (standingsEntry "6" "DAL" 7 10 468) in
  exists reply,
    GET_run parseFloat_NaN "2025-01-05T18:00:00.000Z" rejectingUpstream reply
      ["Failed to fetch stats for PHI:"; "Failed to fetch stats for DAL:"]
    /\ GET_run parseFloat_NaN "2025-01-05T18:00:00.000Z" rejectingUpstream reply
         ["Failed to fetch stats for DAL:"; "Failed to fetch stats for PHI:"]
    /\ map team (env_stats (envelope reply)) = ["PHI"; "DAL"].
Proof.
  intros PHI_team DAL_team.
  pose (doc := standingsOf [standingsEntry "21" "PHI" 14 3 303;
                            standingsEntry "6" "DAL" 7 10 468]).
  exists {| status := 200%nat;
            envelope :=
              {| env_error := None;
                 env_stats := computeEfficiencyRating
                                [baseRecord PHI_team; baseRecord DAL_team];
                 env_lastUpdated := Some "2025-01-05T18:00:00.000Z";
                 env_source := Some "ESPN API - 2024 Season" |} |}.
  split; [|split; [|reflexivity]].
  - apply (GET_run_teams parseFloat_NaN "2025-01-05T18:00:00.000Z" rejectingUpstream
             {| ok := true; body := Some doc |} doc
             {| tasks := [(PHI_team, Resolved (baseRecord PHI_team));
                          (DAL_team, Resolved (baseRecord DAL_team))];
                console := [taskError PHI_team; taskError DAL_team] |}
             [baseRecord PHI_team; baseRecord DAL_team]).
    + reflexivity.
    + reflexivity.
    + reflexivity.
    + intros H. vm_compute in H. discriminate H.
    + apply (run_next rejectingUpstream _
               {| tasks := [(PHI_team, Resolved (baseRecord PHI_team));
                            (DAL_team, AwaitingResponse)];
                  console := [taskError PHI_team] |}).
      { exact (step_task rejectingUpstream [] PHI_team AwaitingResponse
                 [(DAL_team, AwaitingResponse)] []
                 (Resolved (baseRecord PHI_team)) [taskError PHI_team]
                 eq_refl eq_refl). }
      apply (run_next rejectingUpstream _
               {| tasks := [(PHI_team, Resolved (baseRecord PHI_team));
                            (DAL_team, Resolved (baseRecord DAL_team))];
                  console := [taskError PHI_team; taskError DAL_team] |}).
      { exact (step_task rejectingUpstream
                 [(PHI_team, Resolved (baseRecord PHI_team))] DAL_team
                 AwaitingResponse [] [taskError PHI_team]
                 (Resolved (baseRecord DAL_team)) [taskError DAL_team]
                 eq_refl eq_refl). }
      apply run_here.
    + reflexivity.
  - apply (GET_run_teams parseFloat_NaN "2025-01-05T18:00:00.000Z" rejectingUpstream
             {| ok := true; body := Some doc |} doc
             {| tasks := [(PHI_team, Resolved (baseRecord PHI_team));
                          (DAL_team, Resolved (baseRecord DAL_team))];
                console := [taskError DAL_team; taskError PHI_team] |}
             [baseRecord PHI_team; baseRecord DAL_team]).
    + reflexivity.
    + reflexivity.
    + reflexivity.
    + intros H. vm_compute in H. discriminate H.
    + apply (run_next rejectingUpstream _
               {| tasks := [(PHI_team, AwaitingResponse);
                            (DAL_team, Resolved (baseRecord DAL_team))];
                  console := [taskError DAL_team] |}).
      { exact (step_task rejectingUpstream [(PHI_team, AwaitingResponse)] DAL_team
                 AwaitingResponse [] []
                 (Resolved (baseRecord DAL_team)) [taskError DAL_team]
                 eq_refl eq_refl). }
      apply (run_next rejectingUpstream _
               {| tasks := [(PHI_team, Resolved (baseRecord PHI_team));
                            (DAL_team, Resolved (baseRecord DAL_team))];
                  console := [taskError DAL_team; taskError PHI_team] |}).
      { exact (step_task rejectingUpstream [] PHI_team AwaitingResponse
                 [(DAL_team, Resolved (baseRecord DAL_team))] [taskError DAL_team]
                 (Resolved (baseRecord PHI_team)) [taskError PHI_team]
                 eq_refl eq_refl). }
      apply run_here.
    + reflexivity.
Qed.

(** * Further properties of the scorer *)

Lemma same_except_dvoa_metric m t r :
  same_except_dvoa t r -> metric_value m r = metric_value m t.
Proof.
  intros (_ & _ & _ & Hp & Hy & _ & _ & Hs & Hi & Hf).
  destruct m; assumption.
Qed.

Lemma same_except_dvoa_set t r v :
  same_except_dvoa t r -> set_dvoa r v = set_dvoa t v.
Proof.
  destruct t, r. unfold same_except_dvoa, set_dvoa. cbn.
  intros (-> & -> & -> & -> & -> & -> & -> & -> & -> & ->). reflexivity.
Qed.

Lemma same_except_dvoa_map m ts rs :
  Forall2 same_except_dvoa ts rs ->
  map (metric_value m) rs = map (metric_value m) ts.
Proof.
  induction 1 as [|t r ts rs H _ IH]; simpl; [reflexivity|].
  rewrite IH, (same_except_dvoa_metric m t r H). reflexivity.
Qed.

Lemma same_except_dvoa_minMax m t0 r0 ts rs :
  same_except_dvoa t0 r0 -> Forall2 same_except_dvoa ts rs ->
  minMax (metric_value m) r0 rs = minMax (metric_value m) t0 ts.
Proof.
  intros H0 H. unfold minMax.
  rewrite (same_except_dvoa_map m ts rs H), (same_except_dvoa_metric m t0 r0 H0).
  reflexivity.
Qed.

Lemma same_except_dvoa_contribution m t0 rest t r :
  same_except_dvoa t r -> contribution m t0 rest r = contribution m t0 rest t.
Proof.
  intros H. unfold contribution.
  rewrite (same_except_dvoa_metric m t r H). reflexivity.
Qed.

Lemma contribution_batch m t0 r0 ts rs t :
  same_except_dvoa t0 r0 -> Forall2 same_except_dvoa ts rs ->
  contribution m r0 rs t = contribution m t0 ts t.
Proof.
  intros H0 H. unfold contribution.
  rewrite (same_except_dvoa_minMax m t0 r0 ts rs H0 H). reflexivity.
Qed.

Lemma computeEfficiencyRating_same ts rs :
  Forall2 same_except_dvoa ts rs ->
  computeEfficiencyRating rs = computeEfficiencyRating ts.
Proof.
  intros H. destruct H as [|t0 r0 ts rs H0 H]; [reflexivity|].
  rewrite !computeEfficiencyRating_cons.
  assert (Hall : Forall2 same_except_dvoa (t0 :: ts) (r0 :: rs))
    by (constructor; assumption).
  induction Hall as [|t r l l' Htr _ IH]; simpl; [reflexivity|].
  rewrite IH. f_equal.
  rewrite !(contribution_batch _ t0 r0 ts rs _ H0 H),
          !(same_except_dvoa_contribution _ t0 ts t r Htr).
  apply same_except_dvoa_set, Htr.
Qed.

Lemma computeEfficiencyRating_Forall2 teams :
  Forall2 same_except_dvoa teams (computeEfficiencyRating teams).
Proof.
  destruct teams as [|t0 rest]; [constructor|].
  rewrite computeEfficiencyRating_cons.
  apply Forall2_map_r. intros a. repeat split.
Qed.

(** X1: the rating ignores the dvoa already stored in the records: lists
    that agree on every field but dvoa get the same result, and running
    the scorer on its own result changes nothing. *)
Theorem computeEfficiencyRating_idempotent (teams : list TeamDefenseStats) :
  (forall teams', Forall2 same_except_dvoa teams teams' ->
                  computeEfficiencyRating teams' = computeEfficiencyRating teams)
  /\ computeEfficiencyRating (computeEfficiencyRating teams)
     = computeEfficiencyRating teams.
Proof.
  split.
  - intros teams' H. apply computeEfficiencyRating_same, H.
  - apply computeEfficiencyRating_same, computeEfficiencyRating_Forall2.
Qed.

Lemma computeEfficiencyRating_idempotent_witness :
  computeEfficiencyRating
    [set_dvoa PHI 77; set_dvoa DAL 3]
  = computeEfficiencyRating [PHI; DAL].
Proof.
  apply (proj1 (computeEfficiencyRating_idempotent [PHI; DAL])).
  repeat constructor.
Defined.

Lemma minMax_ordered fn t0 rest :
  mm_min (minMax fn t0 rest) <= mm_max (minMax fn t0 rest).
Proof.
  pose proof (minMax_bounds fn t0 rest t0 (or_introl eq_refl)) as [? ?].
  eapply Qle_trans; eassumption.
Qed.

Lemma norm_mono (v w : number) (mm : MinMax) :
  mm_min mm <= mm_max mm -> v <= w -> norm v mm <= norm w mm.
Proof.
  intros Hmm Hvw. unfold norm.
  destruct (Qeq_bool (mm_max mm) (mm_min mm)) eqn:E; [apply Qle_refl|].
  apply Qeq_bool_neq in E.
  assert (Hpos : 0 < mm_max mm - mm_min mm).
  { destruct (Qlt_le_dec (mm_min mm) (mm_max mm)) as [Hlt|Hle]; [lra|].
    exfalso; apply E; apply Qle_antisym; assumption. }
  apply Qle_shift_div_l; [exact Hpos|].
  assert (Ed : (v - mm_min mm) / (mm_max mm - mm_min mm) * (mm_max mm - mm_min mm)
               == v - mm_min mm) by (field; lra).
  rewrite Ed. lra.
Qed.

Lemma contribution_mono m t0 rest t u :
  (if lower_is_better m then metric_value m t <= metric_value m u
   else metric_value m u <= metric_value m t) ->
  contribution m t0 rest u <= contribution m t0 rest t.
Proof.
  intros H. unfold contribution.
  pose proof (minMax_ordered (metric_value m) t0 rest) as Hmm.
  destruct m; cbn [lower_is_better weight] in *;
    pose proof (norm_mono _ _ _ Hmm H); lra.
Qed.

Lemma round1_mono (x y : number) : x <= y -> round1 x <= round1 y.
Proof.
  intros H. unfold round1, Math_round.
  assert (Hz : (Qfloor (x * 10 + (1 # 2)) <= Qfloor (y * 10 + (1 # 2)))%Z)
    by (apply Qfloor_resp_le; lra).
  rewrite Zle_Qle in Hz.
  apply Qle_shift_div_l; [reflexivity|].
  assert (E : inject_Z (Qfloor (x * 10 + (1 # 2))) / 10 * 10
              == inject_Z (Qfloor (x * 10 + (1 # 2)))) by field.
  rewrite E.
  assert (E' : inject_Z (Qfloor (y * 10 + (1 # 2))) / 10 * 10
               == inject_Z (Qfloor (y * 10 + (1 # 2)))) by field.
  lra.
Qed.

(** X2: within one batch, a team that is at least as good as another on
    each of the five metrics (no more points and yards allowed, no fewer
    sacks, interceptions and fumbles) is rated at least as high. *)
Theorem computeEfficiencyRating_dominance (teams : list TeamDefenseStats)
    (i j : nat) (t u : TeamDefenseStats) :
  nth_error teams i = Some t ->
  nth_error teams j = Some u ->
  (forall m, if lower_is_better m then metric_value m t <= metric_value m u
             else metric_value m u <= metric_value m t) ->
  exists rt ru,
    nth_error (computeEfficiencyRating teams) i = Some rt
    /\ nth_error (computeEfficiencyRating teams) j = Some ru
    /\ same_except_dvoa t rt /\ same_except_dvoa u ru
    /\ dvoa ru <= dvoa rt.
Proof.
  intros Hi Hj Hdom.
  destruct teams as [|t0 rest]; [destruct i; discriminate|].
  rewrite computeEfficiencyRating_cons.
  eexists _, _.
  split; [apply map_nth_error; exact Hi|].
  split; [apply map_nth_error; exact Hj|].
  split; [repeat split|]. split; [repeat split|].
  cbn [dvoa set_dvoa]. apply round1_mono.
  pose proof (contribution_mono PointsAllowed t0 rest t u (Hdom PointsAllowed)).
  pose proof (contribution_mono YardsAllowed t0 rest t u (Hdom YardsAllowed)).
  pose proof (contribution_mono Sacks t0 rest t u (Hdom Sacks)).
  pose proof (contribution_mono Interceptions t0 rest t u (Hdom Interceptions)).
  pose proof (contribution_mono Fumbles t0 rest t u (Hdom Fumbles)).
  lra.
Qed.

Lemma computeEfficiencyRating_dominance_witness :
  exists rt ru,
    nth_error (computeEfficiencyRating [DAL; WAS; PHI]) 2 = Some rt
    /\ nth_error (computeEfficiencyRating [DAL; WAS; PHI]) 0 = Some ru
    /\ same_except_dvoa PHI rt /\ same_except_dvoa DAL ru
    /\ dvoa ru <= dvoa rt.
Proof.
  apply (computeEfficiencyRating_dominance [DAL; WAS; PHI] 2 0 PHI DAL).
  - reflexivity.
  - reflexivity.
  - intros m; destruct m; vm_compute; discriminate.
Defined.

Lemma minMax_min_same_elements fn t0 rest t0' rest' :
  (forall x, In x (t0' :: rest') -> In x (t0 :: rest)) ->
  mm_min (minMax fn t0 rest) <= mm_min (minMax fn t0' rest').
Proof.
  intros Hsub. cbn [mm_min minMax]. apply Math_min_glb.
  - apply (minMax_bounds fn t0 rest t0'). apply Hsub. left. reflexivity.
  - intros y Hy. apply in_map_iff in Hy as [x [<- Hx]].
    apply (minMax_bounds fn t0 rest x). apply Hsub. right. exact Hx.
Qed.

Lemma minMax_max_same_elements fn t0 rest t0' rest' :
  (forall x, In x (t0' :: rest') -> In x (t0 :: rest)) ->
  mm_max (minMax fn t0' rest') <= mm_max (minMax fn t0 rest).
Proof.
  intros Hsub. cbn [mm_max minMax]. apply Math_max_lub.
  - apply (minMax_bounds fn t0 rest t0'). apply Hsub. left. reflexivity.
  - intros y Hy. apply in_map_iff in Hy as [x [<- Hx]].
    apply (minMax_bounds fn t0 rest x). apply Hsub. right. exact Hx.
Qed.

Lemma norm_comp (v : number) (mm mm' : MinMax) :
  mm_min mm == mm_min mm' -> mm_max mm == mm_max mm' ->
  norm v mm == norm v mm'.
Proof.
  intros Hmin Hmax. unfold norm.
  destruct (Qeq_bool (mm_max mm) (mm_min mm)) eqn:E;
    destruct (Qeq_bool (mm_max mm') (mm_min mm')) eqn:E'.
  - reflexivity.
  - apply Qeq_bool_eq in E. apply Qeq_bool_neq in E'.
    exfalso. apply E'. rewrite <- Hmin, <- Hmax. exact E.
  - apply Qeq_bool_eq in E'. apply Qeq_bool_neq in E.
    exfalso. apply E. rewrite Hmin, Hmax. exact E'.
  - apply Qeq_bool_neq in E. rewrite Hmin, Hmax. reflexivity.
Qed.

Lemma contribution_same_elements m t0 rest t0' rest' t :
  (forall x, In x (t0 :: rest) <-> In x (t0' :: rest')) ->
  contribution m t0 rest t == contribution m t0' rest' t.
Proof.
  intros Hiff. unfold contribution.
  assert (Hn : norm (metric_value m t) (minMax (metric_value m) t0 rest)
               == norm (metric_value m t) (minMax (metric_value m) t0' rest')).
  { apply norm_comp; apply Qle_antisym.
    - apply minMax_min_same_elements. intros x Hx. apply Hiff, Hx.
    - apply minMax_min_same_elements. intros x Hx. apply Hiff, Hx.
    - apply minMax_max_same_elements. intros x Hx. apply Hiff, Hx.
    - apply minMax_max_same_elements. intros x Hx. apply Hiff, Hx. }
  destruct (lower_is_better m); rewrite Hn; reflexivity.
Qed.

(** X3: the rating of a team does not depend on the order of the batch:
    when one list is a permutation of another, every record of one
    result has a counterpart in the other with the same fields and an
    equal dvoa. *)
Theorem computeEfficiencyRating_order_independent
    (teams teams' : list TeamDefenseStats) :
  Permutation teams teams' ->
  forall r, In r (computeEfficiencyRating teams) ->
    exists r', In r' (computeEfficiencyRating teams')
               /\ same_except_dvoa r r' /\ dvoa r' == dvoa r.
Proof.
  intros Hperm r Hr.
  destruct teams as [|t0 rest];
    [destruct Hr|].
  destruct teams' as [|t0' rest'];
    [apply Permutation_sym, Permutation_nil in Hperm; discriminate|].
  rewrite computeEfficiencyRating_cons in *.
  apply in_map_iff in Hr as [t [<- Ht]].
  assert (Hiff : forall x, In x (t0 :: rest) <-> In x (t0' :: rest')).
  { intros x. split; apply Permutation_in;
      [exact Hperm | apply Permutation_sym, Hperm]. }
  eexists. split.
  - apply in_map_iff. exists t. split; [reflexivity | apply Hiff, Ht].
  - split; [repeat split|]. cbn [dvoa set_dvoa]. apply round1_comp.
    rewrite !(contribution_same_elements _ t0 rest t0' rest' t Hiff).
    reflexivity.
Qed.

Lemma computeEfficiencyRating_order_independent_witness :
  exists r', In r' (computeEfficiencyRating [WAS; PHI; DAL])
             /\ same_except_dvoa (set_dvoa DAL (round1 5)) r'
             /\ dvoa r' == dvoa (set_dvoa DAL (round1 5)).
Proof.
  apply (computeEfficiencyRating_order_independent [PHI; DAL; WAS] [WAS; PHI; DAL]).
  - apply Permutation_sym, (Permutation_cons_append [PHI; DAL] WAS).
  - right. left. vm_compute. reflexivity.
Defined.

(** X4: when each of the five metrics is tied across the whole batch (as
    it is for a single team), every team is rated exactly 50. *)
Theorem computeEfficiencyRating_all_tied (t0 : TeamDefenseStats)
    (rest : list TeamDefenseStats) :
  (forall m u, In u rest -> metric_value m u == metric_value m t0) ->
  Forall (fun r => dvoa r == 50) (computeEfficiencyRating (t0 :: rest)).
Proof.
  intros Htied. rewrite computeEfficiencyRating_cons.
  apply Forall_map, Forall_forall. intros t _. cbn [dvoa set_dvoa].
  transitivity (round1 50).
  - apply round1_comp.
    rewrite !(contribution_tied _ t0 rest t (Htied _)). reflexivity.
  - apply (round1_tenths 500). reflexivity.
Qed.

Lemma computeEfficiencyRating_all_tied_witness :
  Forall (fun r => dvoa r == 50)
         (computeEfficiencyRating [PHI; set_dvoa PHI 12]).
Proof.
  apply (computeEfficiencyRating_all_tied PHI [set_dvoa PHI 12]).
  intros m u [<-|[]]. destruct m; reflexivity.
Defined.

Lemma contribution_of_worst m t0 rest t :
  In t (t0 :: rest) ->
  (forall u, In u (t0 :: rest) ->
     if lower_is_better m then metric_value m u <= metric_value m t
     else metric_value m t <= metric_value m u) ->
  (exists u, In u (t0 :: rest) /\ ~ metric_value m u == metric_value m t) ->
  contribution m t0 rest t == 0.
Proof.
  intros Ht Hworst [u [Hu Hne]].
  pose proof (minMax_distinct (metric_value m) t0 rest t u Ht Hu Hne) as Hd.
  unfold contribution.
  destruct (lower_is_better m) eqn:Hdir.
  - rewrite norm_at_max; [ring | exact Hd |].
    symmetry. apply minMax_max_of_highest; [exact Ht|]. exact Hworst.
  - rewrite norm_at_min; [ring | exact Hd |].
    symmetry. apply minMax_min_of_lowest; [exact Ht|]. exact Hworst.
Qed.

(** X5: a team that has the highest pointsAllowed and yardsAllowed and
    the lowest sacks, interceptions and fumbles of the batch is rated 0,
    provided that on each metric some team of the batch differs from
    it. *)
Theorem worst_team_scores_0 (teams : list TeamDefenseStats) (i : nat)
    (t : TeamDefenseStats) :
  nth_error teams i = Some t ->
  (forall m u, In u teams ->
     if lower_is_better m then metric_value m u <= metric_value m t
     else metric_value m t <= metric_value m u) ->
  (forall m, exists u, In u teams /\ ~ metric_value m u == metric_value m t) ->
  exists r, nth_error (computeEfficiencyRating teams) i = Some r
            /\ same_except_dvoa t r /\ dvoa r == 0.
Proof.
  intros Hi Hworst Hdiff.
  destruct teams as [|t0 rest]; [destruct i; discriminate|].
  assert (Ht : In t (t0 :: rest)) by (eapply nth_error_In; exact Hi).
  rewrite computeEfficiencyRating_cons.
  eexists. split; [apply map_nth_error; exact Hi|].
  split; [repeat split|].
  cbn [dvoa set_dvoa]. transitivity (round1 0).
  - apply round1_comp.
    rewrite !(contribution_of_worst _ t0 rest t Ht (Hworst _) (Hdiff _)).
    reflexivity.
  - reflexivity.
Qed.

Lemma worst_team_scores_0_witness :
  exists r, nth_error (computeEfficiencyRating [PHI; DAL]) 1 = Some r
            /\ same_except_dvoa DAL r /\ dvoa r == 0.
Proof.
  apply (worst_team_scores_0 [PHI; DAL] 1 DAL).
  - reflexivity.
  - intros m u [<-|[<-|[]]]; destruct m; vm_compute; discriminate.
  - intros m. exists PHI. split; [left; reflexivity|].
    destruct m; vm_compute; discriminate.
Defined.



(** * Further properties of the stat normalizer *)

(** X7: [fetchTeamDetailedStats] never rejects, whatever the upstream
    does: it makes exactly one request, to the statistics URL of the
    team, and resolves to a record that has the code, name, logo and
    per-game pointsAllowed of the standings and a dvoa of 0. *)
Theorem fetchTeamDetailedStats_total (t : StandingsTeam) (up : Upstream)
    (log : list string) :
  exists r,
    fetchTeamDetailedStats t up log
    = (Normal r, (log ++ [statisticsUrl (st_id t)])%list)
    /\ team r = st_abbr t /\ fullName r = st_fullName t /\ logo r = st_logo t
    /\ pointsAllowed r = perGame (st_pointsAllowed t) (st_gamesPlayed t)
    /\ dvoa r = 0.
Proof.
  exists (settled up t). split; [apply fetchTeamDetailedStats_run|].
  destruct (settled_keeps up t) as (Ht & Hf & Hl & Hp).
  repeat (split; [assumption|]).
  unfold settled.
  destruct (up (statisticsUrl (st_id t))) as [|r]; [reflexivity|].
  destruct (negb (ok r)); [reflexivity|].
  destruct (body r) as [d|]; [|reflexivity].
  apply (mergeStatistics_keeps t (baseRecord t) (asStatistics d)).
Qed.

(** X8: for a team whose gamesPlayed is not positive, the four per-game
    fields of the record are 0 whatever totals the standings and the
    statistics document hold. *)
Theorem fetchTeamDetailedStats_no_games (t : StandingsTeam) (up : Upstream)
    (log : list string) :
  st_gamesPlayed t <= 0 ->
  exists r log',
    fetchTeamDetailedStats t up log = (Normal r, log')
    /\ pointsAllowed r = 0 /\ yardsAllowed r = 0
    /\ passYardsAllowed r = 0 /\ rushYardsAllowed r = 0.
Proof.
  intros Hgp. eexists _, _. split; [apply fetchTeamDetailedStats_run|].
  assert (Hbase : pointsAllowed (baseRecord t) = 0 /\ yardsAllowed (baseRecord t) = 0
                  /\ passYardsAllowed (baseRecord t) = 0
                  /\ rushYardsAllowed (baseRecord t) = 0).
  { cbn [baseRecord pointsAllowed yardsAllowed passYardsAllowed rushYardsAllowed].
    rewrite (perGame_not_positive _ _ Hgp). repeat split. }
  unfold settled.
  destruct (up (statisticsUrl (st_id t))) as [|r]; [exact Hbase|].
  destruct (negb (ok r)); [exact Hbase|].
  destruct (body r) as [d|]; [|exact Hbase].
  unfold mergeStatistics.
  rewrite !(perGame_not_positive _ _ Hgp).
  destruct Hbase as (Hp & Hy & Hpa & Hr).
  destruct (0 <? List.length _)%nat; destruct (0 <? List.length _)%nat;
    cbn [set_takeaways set_yards pointsAllowed yardsAllowed passYardsAllowed
         rushYardsAllowed];
    repeat split; assumption.
Qed.

Lemma fetchTeamDetailedStats_no_games_witness :
  exists r log',
    fetchTeamDetailedStats
      {| st_id := "21"; st_abbr := "PHI"; st_fullName := "PHI"; st_logo := "";
         st_pointsAllowed := 303; st_gamesPlayed := -17 |}
      mixedUpstream [] = (Normal r, log')
    /\ pointsAllowed r = 0 /\ yardsAllowed r = 0
    /\ passYardsAllowed r = 0 /\ rushYardsAllowed r = 0.
Proof.
  apply fetchTeamDetailedStats_no_games. vm_compute. discriminate.
Defined.



Lemma lower_upper_ascii (c : ascii) : lower_ascii (upper_ascii c) = lower_ascii c.
Proof. destruct c as [[] [] [] [] [] [] [] []]; reflexivity. Qed.

Lemma toLowerCase_toUpperCase (s : string) : toLowerCase (toUpperCase s) = toLowerCase s.
Proof.
  induction s as [|c r IH]; simpl; [reflexivity|].
  rewrite lower_upper_ascii, IH. reflexivity.
Qed.

Lemma find_map_with {A B} (f : B -> bool) (f' : A -> bool) (g : A -> B) (l : list A) :
  (forall x, f (g x) = f' x) ->
  find f (map g l) = option_map g (find f' l).
Proof.
  intros H. induction l as [|x l IH]; simpl; [reflexivity|].
  rewrite H. destruct (f' x); [reflexivity | exact IH].
Qed.

Lemma find_same {A} (f f' : A -> bool) (l : list A) :
  (forall x, f x = f' x) -> find f l = find f' l.
Proof.
  intros H. induction l as [|x l IH]; simpl; [reflexivity|].
  rewrite H, IH. reflexivity.
Qed.

Lemma name_is_recase recase x name :
  (forall y, toLowerCase (recase y) = toLowerCase y) ->
  name_is (option_map recase x) name = name_is x name.
Proof.
  intros H. destruct x as [y|]; simpl; [|reflexivity]. rewrite H. reflexivity.
Qed.

Lemma name_is_same_lower x name name' :
  toLowerCase name = toLowerCase name' -> name_is x name = name_is x name'.
Proof. intros H. destruct x; simpl; [rewrite H|]; reflexivity. Qed.

(** X10: [findStat] does not see the case of ASCII letters, neither in
    the names asked for nor in the names of the document: names with the
    same lower-case form give the same result, and so does a document
    whose category and stat names are re-cased. *)
Theorem findStat_case_insensitive (categories : list ESPNStatCategory)
    (catName statName : string) :
  (forall catName' statName',
      toLowerCase catName = toLowerCase catName' ->
      toLowerCase statName = toLowerCase statName' ->
      findStat categories catName statName
      = findStat categories catName' statName')
  /\ (forall recase : string -> string,
         (forall y, toLowerCase (recase y) = toLowerCase y) ->
         findStat (map (recaseCategory recase) categories) catName statName
         = findStat categories catName statName).
Proof.
  split.
  - intros catName' statName' Hc Hs. unfold findStat.
    rewrite (find_same _ (fun c => name_is (cat_name c) catName'))
      by (intros c; apply name_is_same_lower, Hc).
    destruct (find _ categories) as [cat|]; [|reflexivity].
    destruct (cat_stats cat) as [l|]; [|reflexivity].
    rewrite (find_same _ (fun s => name_is (se_name s) statName'))
      by (intros c; apply name_is_same_lower, Hs).
    reflexivity.
  - intros recase Hre. unfold findStat.
    rewrite (find_map_with _ (fun c => name_is (cat_name c) catName))
      by (intros c; apply name_is_recase, Hre).
    destruct (find _ categories) as [cat|]; [|reflexivity].
    cbn [option_map recaseCategory cat_stats].
    destruct (cat_stats cat) as [l|]; [|reflexivity].
    cbn [option_map].
    rewrite (find_map_with _ (fun s => name_is (se_name s) statName))
      by (intros c; apply name_is_recase, Hre).
    destruct (find _ l) as [stat|]; reflexivity.
Qed.

Lemma findStat_case_insensitive_witness :
  findStat [ {| cat_name := Some "Rushing";
                cat_stats := Some [ {| se_name := Some "totalYards";
                                       se_value := Some 4947 |} ] |} ]
           "rushing" "totalYards"
  = findStat [ {| cat_name := Some "Rushing";
                  cat_stats := Some [ {| se_name := Some "totalYards";
                                         se_value := Some 4947 |} ] |} ]
             "RUSHING" "TOTALYARDS"
  /\ findStat (map (recaseCategory toUpperCase)
                   [ {| cat_name := Some "Rushing";
                        cat_stats := Some [ {| se_name := Some "totalYards";
                                               se_value := Some 4947 |} ] |} ])
              "rushing" "totalYards"
     = 4947.
Proof.
  destruct (findStat_case_insensitive
              [ {| cat_name := Some "Rushing";
                   cat_stats := Some [ {| se_name := Some "totalYards";
                                          se_value := Some 4947 |} ] |} ]
              "rushing" "totalYards") as [Hnames Hdoc].
  split.
  - apply Hnames; reflexivity.
  - rewrite (Hdoc toUpperCase toLowerCase_toUpperCase). reflexivity.
Defined.

(** X11: [findStat] consults the first category whose name matches and no
    other: categories after it, of the same name or not, do not change
    the result, which is 0 when that category has no stats array, no
    stat of the name asked for, or a stat without a value; and the
    result is 0 when no category matches. *)
Theorem findStat_first_category (catName statName : string) :
  (forall categories,
      (forall c, In c categories -> name_is (cat_name c) catName = false) ->
      findStat categories catName statName = 0)
  /\ (forall before cat after,
         (forall c, In c before -> name_is (cat_name c) catName = false) ->
         name_is (cat_name cat) catName = true ->
         findStat (before ++ cat :: after) catName statName
         = findStat [cat] catName statName
         /\ (cat_stats cat = None ->
             findStat (before ++ cat :: after) catName statName = 0)
         /\ (forall l, cat_stats cat = Some l ->
               (forall s, In s l -> name_is (se_name s) statName = false) ->
               findStat (before ++ cat :: after) catName statName = 0)).
Proof.
  split.
  - intros categories Hno. unfold findStat.
    rewrite find_nothing by exact Hno. reflexivity.
  - intros before cat after Hbefore Hcat.
    assert (E : findStat (before ++ cat :: after) catName statName
                = findStat [cat] catName statName).
    { unfold findStat.
      rewrite (find_first _ before after cat Hbefore Hcat).
      simpl. rewrite Hcat. reflexivity. }
    split; [exact E|]. rewrite E. unfold findStat. simpl. rewrite Hcat.
    split.
    + intros ->. reflexivity.
    + intros l -> Hno. rewrite find_nothing by exact Hno. reflexivity.
Qed.

Lemma findStat_first_category_witness :
  findStat ([ {| cat_name := Some "passing"; cat_stats := None |} ]
              ++ {| cat_name := Some "rushing"; cat_stats := None |}
              :: [ {| cat_name := Some "rushing";
                      cat_stats := Some [ {| se_name := Some "totalYards";
                                             se_value := Some 4947 |} ] |} ])
           "rushing" "totalYards" = 0.
Proof.
  apply (proj2 (findStat_first_category "rushing" "totalYards")
           [ {| cat_name := Some "passing"; cat_stats := None |} ]
           {| cat_name := Some "rushing"; cat_stats := None |}
           [ {| cat_name := Some "rushing";
                cat_stats := Some [ {| se_name := Some "totalYards";
                                       se_value := Some 4947 |} ] |} ]).
  - intros c [<-|[]]. reflexivity.
  - reflexivity.
  - reflexivity.
Defined.

(** * Further properties of the extractor and of the route *)

(** X12: the gamesPlayed of an extracted team is never zero, and an entry
    without a stats array gives gamesPlayed 17 and a points total of 0,
    hence a record with pointsAllowed 0. *)
Theorem extractTeamsFromStandings_gamesPlayed
    (parseFloat : string -> option number) (data : StandingsData) :
  Forall (fun t => ~ st_gamesPlayed t == 0)
         (extractTeamsFromStandings parseFloat data)
  /\ (forall entry, entry_stats entry = None ->
        st_gamesPlayed (teamOfEntry parseFloat entry) = 17
        /\ st_pointsAllowed (teamOfEntry parseFloat entry) = 0
        /\ pointsAllowed (baseRecord (teamOfEntry parseFloat entry)) == 0).
Proof.
  split.
  - rewrite extractTeamsFromStandings_entries.
    apply Forall_map, Forall_forall. intros entry _.
    apply (teamOfEntry_gamesPlayed parseFloat entry).
  - intros entry Hnone.
    unfold teamOfEntry, baseRecord. rewrite Hnone.
    cbn. repeat split.
Qed.

Lemma extractTeamsFromStandings_gamesPlayed_witness :
  st_gamesPlayed (teamOfEntry parseFloat_NaN
                    {| entry_team := {| team_id := "21"; team_abbreviation := "PHI";
                                        team_displayName := "PHI";
                                        team_logos := None |};
                       entry_stats := None |}) = 17.
Proof.
  apply (proj2 (extractTeamsFromStandings_gamesPlayed parseFloat_NaN
                  {| children := None |})).
  reflexivity.
Defined.

Lemma computeEfficiencyRating_not_empty teams :
  teams <> [] -> computeEfficiencyRating teams <> [].
Proof.
  intros Hne H. apply Hne. apply length_zero_iff_nil.
  rewrite <- computeEfficiencyRating_length, H. reflexivity.
Qed.

(** X13: [GET] never rejects, whatever the upstream does.  Its reply is
    either a success (status 200, no error, a stats list that is not
    empty, the time of the reply and the source) or a failure (status
    500, an error message, an empty stats list and nothing else). *)
Theorem GET_reply_shape (parseFloat : string -> option number) (now : string)
    (up : Upstream) (log : list string) :
  exists reply log',
    GET parseFloat now up log = (Normal reply, log')
    /\ ((status reply = 200%nat
         /\ env_error (envelope reply) = None
         /\ env_stats (envelope reply) <> []
         /\ env_lastUpdated (envelope reply) = Some now
         /\ env_source (envelope reply) = Some "ESPN API - 2024 Season")
        \/ (status reply = 500%nat
            /\ (exists message, env_error (envelope reply) = Some message)
            /\ env_stats (envelope reply) = []
            /\ env_lastUpdated (envelope reply) = None
            /\ env_source (envelope reply) = None)).
Proof.
  destruct (up standingsUrl) as [|r] eqn:Hup.
  - eexists _, _. split; [apply GET_rejected; exact Hup|].
    right. cbn. repeat split. eexists. reflexivity.
  - destruct (ok r) eqn:Hok.
    + destruct (body r) as [d|] eqn:Hbody.
      * destruct (extractTeamsFromStandings parseFloat (asStandings d))
          as [|t ts] eqn:He.
        -- eexists _, _. split; [apply (GET_no_teams _ _ _ _ r d); assumption|].
           right. cbn. repeat split. eexists. reflexivity.
        -- assert (Hne : extractTeamsFromStandings parseFloat (asStandings d) <> [])
             by (rewrite He; discriminate).
           eexists _, _. split; [apply (GET_teams _ _ _ _ r d); assumption|].
           left. cbn [status envelope env_error env_stats env_lastUpdated env_source].
           repeat split.
           apply computeEfficiencyRating_not_empty.
           rewrite He. discriminate.
      * eexists _, _. split; [apply (GET_no_document _ _ _ _ r); assumption|].
        right. cbn. repeat split. eexists. reflexivity.
    + eexists _, _. split; [apply (GET_not_ok _ _ _ _ r); assumption|].
      right. cbn. repeat split. eexists. reflexivity.
Qed.

(** X14: [GET] requests the standings first and once, then one
    statistics URL per record of its reply, and nothing else: a reply
    with n records costs n + 1 requests, a failure costs one. *)
Theorem GET_requests (parseFloat : string -> option number) (now : string)
    (up : Upstream) (log : list string) :
  exists reply urls,
    GET parseFloat now up log = (Normal reply, (log ++ standingsUrl :: urls)%list)
    /\ List.length urls = List.length (env_stats (envelope reply))
    /\ Forall (fun url => exists id, url = statisticsUrl id) urls.
Proof.
  destruct (up standingsUrl) as [|r] eqn:Hup.
  - exists (errorReply "Failed to fetch NFL statistics"), [].
    split; [apply GET_rejected; exact Hup|]. split; [reflexivity | constructor].
  - destruct (ok r) eqn:Hok.
    + destruct (body r) as [d|] eqn:Hbody.
      * destruct (extractTeamsFromStandings parseFloat (asStandings d))
          as [|t ts] eqn:He.
        -- exists (errorReply "No teams found in standings"), [].
           split; [apply (GET_no_teams _ _ _ _ r d); assumption|].
           split; [reflexivity | constructor].
        -- assert (Hne : extractTeamsFromStandings parseFloat (asStandings d) <> [])
             by (rewrite He; discriminate).
           eexists _, _. split; [apply (GET_teams _ _ _ _ r d); assumption|].
           cbn [envelope env_stats]. split.
           ++ rewrite computeEfficiencyRating_length, !length_map. reflexivity.
           ++ apply Forall_map, Forall_forall. intros x _. eexists. reflexivity.
      * exists (errorReply "Failed to fetch NFL statistics"), [].
        split; [apply (GET_no_document _ _ _ _ r); assumption|].
        split; [reflexivity | constructor].
    + exists (errorReply "Failed to fetch standings"), [].
      split; [apply (GET_not_ok _ _ _ _ r); assumption|].
      split; [reflexivity | constructor].
Qed.

(** X15: when the standings request is rejected, or is answered with a
    success status and a body that is not a document, the route answers
    with status 500 and the message of its outer handler, after that one
    request. *)
Theorem GET_unreadable_standings (parseFloat : string -> option number)
    (now : string) (up : Upstream) :
  up standingsUrl = NetworkFailure
  \/ (exists r, up standingsUrl = Responds r /\ ok r = true /\ body r = None) ->
  GET parseFloat now up []
  = (Normal (errorReply "Failed to fetch NFL statistics"), [standingsUrl]).
Proof.
  intros [Hup | (r & Hup & Hok & Hbody)].
  - exact (GET_rejected parseFloat now up [] Hup).
  - exact (GET_no_document parseFloat now up [] r Hup Hok Hbody).
Qed.

Lemma GET_unreadable_standings_witness :
  GET parseFloat_NaN "2025-01-06T00:00:00.000Z" (fun _ => NetworkFailure) []
  = (Normal (errorReply "Failed to fetch NFL statistics"), [standingsUrl]).
Proof.
  apply GET_unreadable_standings. left. reflexivity.
Defined.

(** * Properties of the client state *)

Lemma dispatchAll_app s acts1 acts2 :
  dispatchAll s (acts1 ++ acts2) = dispatchAll (dispatchAll s acts1) acts2.
Proof. apply fold_left_app. Qed.

Lemma dispatchAll_cons s a acts :
  dispatchAll s (a :: acts) = dispatchAll (reducer s a) acts.
Proof. reflexivity. Qed.

Lemma reducer_keeps_data s a :
  (forall p, a <> Fulfilled p) -> defenseData (reducer s a) = defenseData s.
Proof.
  intros H. destruct a; try reflexivity. exfalso. eapply H. reflexivity.
Qed.

Lemma dispatchAll_keeps_data acts s :
  (forall a, In a acts -> forall p, a <> Fulfilled p) ->
  defenseData (dispatchAll s acts) = defenseData s.
Proof.
  revert s. induction acts as [|a acts IH]; intros s H; [reflexivity|].
  rewrite dispatchAll_cons.
  rewrite IH by (intros b Hb; apply H; right; exact Hb).
  apply reducer_keeps_data. apply H. left. reflexivity.
Qed.

Lemma reducer_Fulfilled_data s p : defenseData (reducer s (Fulfilled p)) = p.
Proof. destruct p as [|p0 [|p1 l]]; reflexivity. Qed.

(** X16: after any sequence of actions, [defenseData] is the payload of
    the last [fulfilled] action, or the data of the starting state when
    there is none: no other action of the slice touches the fetched
    records. *)
Theorem dispatchAll_defenseData (s : NFLStatsState) :
  (forall actions,
      (forall a, In a actions -> forall p, a <> Fulfilled p) ->
      defenseData (dispatchAll s actions) = defenseData s)
  /\ (forall before payload after,
         (forall a, In a after -> forall p, a <> Fulfilled p) ->
         defenseData (dispatchAll s (before ++ Fulfilled payload :: after))
         = payload).
Proof.
  split.
  - intros actions H. apply dispatchAll_keeps_data, H.
  - intros before payload after H.
    rewrite dispatchAll_app, dispatchAll_cons.
    rewrite dispatchAll_keeps_data by exact H.
    apply reducer_Fulfilled_data.
Qed.

Lemma dispatchAll_defenseData_witness :
  defenseData
    (dispatchAll initialState
       ([Pending; Fulfilled [DAL]; SetTeam1 "WAS"; Pending]
          ++ Fulfilled [PHI; DAL] :: [SetSelectedMetric KeySacks; Pending; Rejected None]))
  = [PHI; DAL].
Proof.
  apply (proj2 (dispatchAll_defenseData initialState)).
  intros a [<-|[<-|[<-|[]]]] p; discriminate.
Defined.

(** X17: while a fetch is pending, the selections of the user leave the
    state loading and without error: after [pending] and any number of
    [setSelectedMetric], [setTeam1] and [setTeam2], [loading] is true and
    [error] is null. *)
Theorem dispatchAll_pending (s : NFLStatsState) (before selections : list Action) :
  (forall a, In a selections ->
     (exists m, a = SetSelectedMetric m) \/ (exists t, a = SetTeam1 t)
     \/ (exists t, a = SetTeam2 t)) ->
  loading (dispatchAll s (before ++ Pending :: selections)) = true
  /\ error (dispatchAll s (before ++ Pending :: selections)) = None.
Proof.
  intros Hsel. rewrite dispatchAll_app, dispatchAll_cons.
  generalize (dispatchAll s before). intros s0.
  assert (Hstart : loading (reducer s0 Pending) = true
                   /\ error (reducer s0 Pending) = None) by (split; reflexivity).
  revert Hstart. generalize (reducer s0 Pending). clear s0.
  induction selections as [|a l IH]; intros s1 Hs1; [exact Hs1|].
  rewrite dispatchAll_cons. apply IH.
  - intros b Hb. apply Hsel. right. exact Hb.
  - destruct (Hsel a (or_introl eq_refl)) as [[m ->] | [[t ->] | [t ->]]];
      exact Hs1.
Qed.

Lemma dispatchAll_pending_witness :
  loading (dispatchAll initialState
             ([Rejected None] ++ Pending :: [SetTeam1 "WAS"; SetSelectedMetric KeyDvoa]))
  = true
  /\ error (dispatchAll initialState
              ([Rejected None] ++ Pending :: [SetTeam1 "WAS"; SetSelectedMetric KeyDvoa]))
     = None.
Proof.
  apply dispatchAll_pending.
  intros a [<-|[<-|[]]].
  - right. left. eexists. reflexivity.
  - left. eexists. reflexivity.
Defined.

(** X18: a whole fetch, [pending] followed by the action of the thunk,
    ends with [loading] false from any state.  When the thunk fulfils,
    the payload is not empty, it becomes [defenseData], and [error] is
    null; otherwise the data and the two teams are as before and [error]
    holds the message the thunk rejected with: the thunk never rejects
    without a payload. *)
Theorem fetch_cycle (s : NFLStatsState) (o : ApiOutcome) :
  let s' := dispatchAll s [Pending; fetchNFLStats o] in
  loading s' = false
  /\ selectedMetric s' = selectedMetric s
  /\ match fetchNFLStats_try o with
     | inr stats =>
         fetchNFLStats o = Fulfilled stats
         /\ stats <> [] /\ defenseData s' = stats /\ error s' = None
     | inl _ =>
         (exists message, fetchNFLStats o = Rejected (Some message)
                          /\ error s' = Some message)
         /\ defenseData s' = defenseData s
         /\ team1 s' = team1 s /\ team2 s' = team2 s
     end.
Proof.
  intros s'. subst s'. unfold fetchNFLStats.
  destruct (fetchNFLStats_try o) as [e | stats] eqn:Htry.
  - destruct e as [message|]; cbn; repeat split; eexists; split; reflexivity.
  - assert (Hne : stats <> []).
    { unfold fetchNFLStats_try in Htry.
      destruct o as [e | ok st js]; [discriminate|].
      destruct (negb ok); [discriminate|].
      destruct js as [e | d]; [discriminate|].
      destruct (data_stats d) as [l|]; [|discriminate].
      destruct l as [|x l]; [discriminate|].
      cbn in Htry. injection Htry as <-. discriminate. }
    destruct stats as [|p0 [|p1 l]]; [contradiction| |]; cbn; repeat split;
      discriminate.
Qed.

Lemma GET_cases parseFloat now up log :
  exists reply log',
    GET parseFloat now up log = (Normal reply, log')
    /\ ((status reply = 200%nat /\ env_stats (envelope reply) <> [])
        \/ exists message, reply = errorReply message).
Proof.
  destruct (up standingsUrl) as [|r] eqn:Hup.
  - eexists _, _. split; [apply GET_rejected; exact Hup|].
    right. eexists. reflexivity.
  - destruct (ok r) eqn:Hok.
    + destruct (body r) as [d|] eqn:Hbody.
      * destruct (extractTeamsFromStandings parseFloat (asStandings d))
          as [|t ts] eqn:He.
        -- eexists _, _. split; [apply (GET_no_teams _ _ _ _ r d); assumption|].
           right. eexists. reflexivity.
        -- assert (Hne : extractTeamsFromStandings parseFloat (asStandings d) <> [])
             by (rewrite He; discriminate).
           eexists _, _. split; [apply (GET_teams _ _ _ _ r d); assumption|].
           left. cbn [status envelope env_stats]. split; [reflexivity|].
           apply computeEfficiencyRating_not_empty. rewrite He. discriminate.
      * eexists _, _. split; [apply (GET_no_document _ _ _ _ r); assumption|].
        right. eexists. reflexivity.
    + eexists _, _. split; [apply (GET_not_ok _ _ _ _ r); assumption|].
      right. eexists. reflexivity.
Qed.

(** X19: the client and the route together.  Whatever the upstream does,
    the thunk that receives the reply of [GET] either fulfils with the
    records of a reply of status 200, or rejects with the message made
    from the status 500; the message the route put in its envelope is not
    what the state shows. *)
Theorem client_after_route (parseFloat : string -> option number) (now : string)
    (up : Upstream) :
  exists reply log',
    GET parseFloat now up [] = (Normal reply, log')
    /\ ((status reply = 200%nat
         /\ fetchNFLStats (apiOutcomeOf reply)
            = Fulfilled (env_stats (envelope reply)))
        \/ (status reply = 500%nat
            /\ fetchNFLStats (apiOutcomeOf reply)
               = Rejected (Some "Failed to fetch: 500")
            /\ forall s, error (dispatchAll s [Pending; fetchNFLStats (apiOutcomeOf reply)])
                         = Some "Failed to fetch: 500")).
Proof.
  destruct (GET_cases parseFloat now up []) as (reply & log' & Hrun & Hcase).
  exists reply, log'. split; [exact Hrun|].
  destruct Hcase as [[Hst Hne] | [message ->]].
  - left. split; [exact Hst|].
    unfold fetchNFLStats, fetchNFLStats_try, apiOutcomeOf. rewrite Hst.
    cbn [Nat.leb andb negb data_stats].
    destruct (env_stats (envelope reply)) as [|x l]; [contradiction|].
    reflexivity.
  - right. split; [reflexivity|]. split; [reflexivity|].
    intros s. reflexivity.
Qed.

Lemma find_head_team (p0 : TeamDefenseStats) (l : list TeamDefenseStats) :
  find (fun t => String.eqb (team t) (team p0)) (p0 :: l) = Some p0.
Proof. simpl. rewrite String.eqb_refl. reflexivity. Qed.

(** X20: after a fetch fulfilled with at least two records, the radar
    comparison is never empty: the two teams the reducer selects are
    found in the data, and [selectRadarData] returns its five rows. *)
Theorem radar_after_fulfilled (s : NFLStatsState) (p0 p1 : TeamDefenseStats)
    (rest : list TeamDefenseStats) :
  let s' := reducer s (Fulfilled (p0 :: p1 :: rest)) in
  team1 s' = team p0 /\ team2 s' = team p1
  /\ List.length (selectRadarData s') = 5%nat.
Proof.
  intros s'. subst s'. split; [reflexivity|]. split; [reflexivity|].
  unfold selectRadarData, getRadarData.
  cbn [reducer defenseData team1 team2].
  rewrite find_head_team.
  assert (H1 : exists t2, find (fun t => String.eqb (team t) (team p1))
                               (p0 :: p1 :: rest) = Some t2).
  { simpl. destruct (String.eqb (team p0) (team p1)); [eexists; reflexivity|].
    rewrite String.eqb_refl. eexists; reflexivity. }
  destruct H1 as [t2 ->]. reflexivity.
Qed.

(** * Properties of the selectors *)

Section SortFacts.

Context {A : Type}.
Variable compareFn : A -> A -> number.

Lemma sort_insert_perm (x : A) (l : list A) :
  Permutation (x :: l) (sort_insert compareFn x l).
Proof.
  induction l as [|y r IH]; simpl; [apply Permutation_refl|].
  destruct (gt (compareFn x y) 0); [|apply Permutation_refl].
  eapply Permutation_trans; [apply perm_swap|].
  apply perm_skip, IH.
Qed.

Lemma Array_sort_perm (l : list A) : Permutation l (Array_sort compareFn l).
Proof.
  induction l as [|x l IH]; simpl; [constructor|].
  eapply Permutation_trans; [apply perm_skip, IH | apply sort_insert_perm].
Qed.

Variable R : A -> A -> Prop.
Hypothesis R_trans : forall a b c, R a b -> R b c -> R a c.
Hypothesis R_stop : forall x y, gt (compareFn x y) 0 = false -> R x y.
Hypothesis R_pass : forall x y, gt (compareFn x y) 0 = true -> R y x.

Lemma sort_insert_strongly_sorted (x : A) (l : list A) :
  StronglySorted R l -> StronglySorted R (sort_insert compareFn x l).
Proof.
  induction l as [|y r IH]; intros Hs; simpl.
  - constructor; constructor.
  - apply StronglySorted_inv in Hs as [Hr Hy].
    destruct (gt (compareFn x y) 0) eqn:E.
    + constructor; [apply IH, Hr|].
      apply (Permutation_Forall (sort_insert_perm x r)).
      constructor; [apply R_pass, E | exact Hy].
    + constructor; [constructor; assumption|].
      constructor; [apply R_stop, E|].
      apply Forall_forall. intros z Hz.
      apply (R_trans x y z); [apply R_stop, E|].
      rewrite Forall_forall in Hy. apply Hy, Hz.
Qed.

Lemma Array_sort_strongly_sorted (l : list A) :
  StronglySorted R (Array_sort compareFn l).
Proof.
  induction l as [|x l IH]; simpl; [constructor|].
  apply sort_insert_strongly_sorted, IH.
Qed.

End SortFacts.

Lemma gt_true (a b : number) : gt a b = true -> b < a.
Proof.
  unfold gt. intros H. apply negb_true_iff in H.
  destruct (Qlt_le_dec b a) as [Hlt|Hle]; [exact Hlt|].
  apply Qle_bool_iff in Hle. congruence.
Qed.

Lemma gt_false (a b : number) : gt a b = false -> a <= b.
Proof.
  unfold gt. intros H. apply negb_false_iff in H.
  apply Qle_bool_iff, H.
Qed.

(** The order in which [selectSortedData] lists two values of the metric. *)
Lemma compareByMetric_stop localeCompare metric a b :
  gt (compareByMetric localeCompare metric a b) 0 = false ->
  if ascendingMetric metric then metricOf metric a <= metricOf metric b
  else metricOf metric b <= metricOf metric a.
Proof.
  unfold compareByMetric. intros H.
  destruct (ascendingMetric metric);
    match goal with
    | H : context [Qeq_bool ?d 0] |- _ => destruct (Qeq_bool d 0) eqn:E
    end; cbn [negb] in H;
    try (apply Qeq_bool_eq in E; lra);
    apply gt_false in H; lra.
Qed.

Lemma compareByMetric_pass localeCompare metric a b :
  gt (compareByMetric localeCompare metric a b) 0 = true ->
  if ascendingMetric metric then metricOf metric b <= metricOf metric a
  else metricOf metric a <= metricOf metric b.
Proof.
  unfold compareByMetric. intros H.
  destruct (ascendingMetric metric);
    match goal with
    | H : context [Qeq_bool ?d 0] |- _ => destruct (Qeq_bool d 0) eqn:E
    end; cbn [negb] in H;
    try (apply Qeq_bool_eq in E; lra);
    apply gt_true in H; lra.
Qed.

(** X21: [selectSortedData] returns the records of the state, each as
    often as it occurs, in the order of the selected metric: ascending
    for pointsAllowed and yardsAllowed, descending for sacks,
    interceptions and dvoa, whatever [localeCompare] answers. *)
Theorem selectSortedData_sorted (localeCompare : string -> string -> number)
    (s : NFLStatsState) :
  Permutation (defenseData s) (selectSortedData localeCompare s)
  /\ StronglySorted
       (fun a b =>
          if ascendingMetric (selectedMetric s)
          then metricOf (selectedMetric s) a <= metricOf (selectedMetric s) b
          else metricOf (selectedMetric s) b <= metricOf (selectedMetric s) a)
       (selectSortedData localeCompare s).
Proof.
  split; [apply Array_sort_perm|].
  apply Array_sort_strongly_sorted.
  - intros a b c. destruct (ascendingMetric (selectedMetric s)); intros; lra.
  - intros x y. apply compareByMetric_stop.
  - intros x y H. apply compareByMetric_pass in H.
    destruct (ascendingMetric (selectedMetric s)); exact H.
Qed.

Section SortedByComparator.

Context {A : Type}.
Variable compareFn : A -> A -> number.
Hypothesis compareFn_total :
  forall x y, gt (compareFn x y) 0 = true -> compareFn y x <= 0.

Lemma sort_insert_HdRel (y x : A) (l : list A) :
  compareFn y x <= 0 -> HdRel (fun a b => compareFn a b <= 0) y l ->
  HdRel (fun a b => compareFn a b <= 0) y (sort_insert compareFn x l).
Proof.
  intros Hyx Hl. destruct l as [|z r]; simpl; [constructor; exact Hyx|].
  destruct (gt (compareFn x z) 0); constructor;
    [inversion Hl; assumption | exact Hyx].
Qed.

Lemma sort_insert_sorted (x : A) (l : list A) :
  Sorted (fun a b => compareFn a b <= 0) l ->
  Sorted (fun a b => compareFn a b <= 0) (sort_insert compareFn x l).
Proof.
  induction l as [|y r IH]; intros Hs; simpl.
  - constructor; constructor.
  - apply Sorted_inv in Hs as [Hr Hy].
    destruct (gt (compareFn x y) 0) eqn:E.
    + constructor; [apply IH, Hr|].
      apply sort_insert_HdRel; [apply compareFn_total, E | exact Hy].
    + constructor; [constructor; assumption|].
      constructor. apply gt_false, E.
Qed.

Lemma Array_sort_sorted (l : list A) :
  Sorted (fun a b => compareFn a b <= 0) (Array_sort compareFn l).
Proof.
  induction l as [|x l IH]; simpl; [constructor|].
  apply sort_insert_sorted, IH.
Qed.

End SortedByComparator.

(** X22: when [localeCompare] never puts two strings each after the
    other, no record of [selectSortedData] is followed by one the
    comparator would put before it; so neighbours that are equal on the
    metric stand in the order [localeCompare] gives their team codes. *)
Theorem selectSortedData_ties (localeCompare : string -> string -> number)
    (s : NFLStatsState) :
  (forall x y, 0 < localeCompare x y -> localeCompare y x <= 0) ->
  Sorted (fun a b => compareByMetric localeCompare (selectedMetric s) a b <= 0)
         (selectSortedData localeCompare s)
  /\ (forall a b, compareByMetric localeCompare (selectedMetric s) a b <= 0 ->
        metricOf (selectedMetric s) a == metricOf (selectedMetric s) b ->
        localeCompare (team a) (team b) <= 0).
Proof.
  intros Htotal. split.
  - apply Array_sort_sorted. intros x y H. apply gt_true in H.
    revert H. unfold compareByMetric.
    destruct (ascendingMetric (selectedMetric s));
      repeat match goal with
             | |- context [Qeq_bool ?d 0] =>
                 let E := fresh "E" in destruct (Qeq_bool d 0) eqn:E
             end; cbn [negb]; intros H;
      repeat match goal with
             | E : Qeq_bool _ _ = true |- _ => apply Qeq_bool_eq in E
             | E : Qeq_bool _ _ = false |- _ => apply Qeq_bool_neq in E
             end;
      try (apply Htotal; exact H); try lra;
      exfalso; match goal with E : ~ _ == 0 |- _ => apply E end; lra.
  - intros a b Hab Heq. revert Hab. unfold compareByMetric.
    destruct (ascendingMetric (selectedMetric s));
      match goal with
      | |- context [Qeq_bool ?d 0] => destruct (Qeq_bool d 0) eqn:E
      end; cbn [negb]; intros Hab; try exact Hab;
      apply Qeq_bool_neq in E; exfalso; apply E; lra.
Qed.

Lemma codeCompare_total (x y : string) :
  0 < codeCompare x y -> codeCompare y x <= 0.
Proof.
  unfold codeCompare. rewrite (String.compare_antisym y x).
  destruct (String.compare x y); cbn [CompOpp]; intros H;
    try (vm_compute; discriminate); vm_compute in H; discriminate.
Qed.

Lemma selectSortedData_ties_witness :
  Sorted (fun a b => compareByMetric codeCompare KeySacks a b <= 0)
         (selectSortedData codeCompare
            {| defenseData := [WAS; DAL; PHI]; loading := false; error := None;
               selectedMetric := KeySacks; team1 := "PHI"; team2 := "DAL" |}).
Proof.
  apply (proj1 (selectSortedData_ties codeCompare
                  {| defenseData := [WAS; DAL; PHI]; loading := false; error := None;
                     selectedMetric := KeySacks; team1 := "PHI"; team2 := "DAL" |}
                  codeCompare_total)).
Defined.

Example selectSortedData_example :
  map team (selectSortedData codeCompare
              {| defenseData := [WAS; DAL; PHI]; loading := false; error := None;
                 selectedMetric := KeySacks; team1 := "PHI"; team2 := "DAL" |})
  = ["PHI"; "WAS"; "DAL"].
Proof. reflexivity. Qed.

Lemma sort_insert_filter (v : number) (x : TeamDefenseStats)
    (l : list TeamDefenseStats) :
  filter (fun t => Qeq_bool (pointsAllowed t) v)
         (sort_insert (fun a b => pointsAllowed a - pointsAllowed b) x l)
  = filter (fun t => Qeq_bool (pointsAllowed t) v) (x :: l).
Proof.
  induction l as [|y r IH]; [reflexivity|].
  cbn [sort_insert].
  destruct (gt (pointsAllowed x - pointsAllowed y) 0) eqn:E; [|reflexivity].
  apply gt_true in E.
  cbn [filter] in *. rewrite IH.
  destruct (Qeq_bool (pointsAllowed y) v) eqn:Ey;
    destruct (Qeq_bool (pointsAllowed x) v) eqn:Ex; try reflexivity.
  apply Qeq_bool_eq in Ey, Ex. lra.
Qed.

(** X23: [selectTableData] returns the records of the state, each as
    often as it occurs, by ascending pointsAllowed; and the sort is
    stable: the records with one value of pointsAllowed keep the order
    they have in the state. *)
Theorem selectTableData_sorted (s : NFLStatsState) :
  Permutation (defenseData s) (selectTableData s)
  /\ StronglySorted (fun a b => pointsAllowed a <= pointsAllowed b)
                    (selectTableData s)
  /\ (forall v,
        filter (fun t => Qeq_bool (pointsAllowed t) v) (selectTableData s)
        = filter (fun t => Qeq_bool (pointsAllowed t) v) (defenseData s)).
Proof.
  split; [apply Array_sort_perm|]. split.
  - apply Array_sort_strongly_sorted.
    + intros a b c ? ?. lra.
    + intros x y H. apply gt_false in H. lra.
    + intros x y H. apply gt_true in H. lra.
  - intros v. unfold selectTableData.
    induction (defenseData s) as [|x l IH]; [reflexivity|].
    cbn [Array_sort fold_right].
    fold (Array_sort (fun a b => pointsAllowed a - pointsAllowed b) l).
    rewrite sort_insert_filter. cbn [filter]. rewrite IH. reflexivity.
Qed.

(** ** Maps *)

Lemma Map_get_set {V} (m : JSMap V) (k k' : string) (v : V) :
  Map_get (Map_set m k v) k' = if String.eqb k k' then Some v else Map_get m k'.
Proof.
  induction m as [|[k0 v0] r IH]; simpl.
  - reflexivity.
  - destruct (String.eqb k0 k) eqn:E0; simpl.
    + apply String.eqb_eq in E0. subst k0.
      destruct (String.eqb k k'); reflexivity.
    + rewrite IH. destruct (String.eqb k0 k') eqn:E1; [|reflexivity].
      apply String.eqb_eq in E1. subst k0.
      destruct (String.eqb k k') eqn:E2; [|reflexivity].
      apply String.eqb_eq in E2. subst k'. rewrite String.eqb_refl in E0.
      discriminate.
Qed.

Lemma find_snoc {A} (f : A -> bool) (l : list A) (x : A) :
  find f (l ++ [x])
  = match find f l with
    | Some y => Some y
    | None => if f x then Some x else None
    end.
Proof.
  induction l as [|y l IH]; simpl; [reflexivity|].
  destruct (f y); [reflexivity | exact IH].
Qed.

Lemma Map_get_fold {V} (entries : list (string * V)) (m : JSMap V) (k : string) :
  Map_get (fold_left (fun m e => Map_set m (fst e) (snd e)) entries m) k
  = match find (fun e => String.eqb (fst e) k) (rev entries) with
    | Some e => Some (snd e)
    | None => Map_get m k
    end.
Proof.
  revert m. induction entries as [|e l IH]; intros m; [reflexivity|].
  cbn [fold_left rev]. rewrite IH, find_snoc.
  destruct (find _ (rev l)); [reflexivity|].
  rewrite Map_get_set. destruct (String.eqb (fst e) k); reflexivity.
Qed.

Lemma find_unique_team (l : list TeamDefenseStats) (t : TeamDefenseStats) :
  NoDup (map team l) -> In t l ->
  find (fun x => String.eqb (team x) (team t)) l = Some t.
Proof.
  induction l as [|y l IH]; intros Hnd Hin; [destruct Hin|].
  inversion Hnd as [|? ? Hnotin Hnd']; subst.
  simpl. destruct Hin as [->|Hin].
  - rewrite String.eqb_refl. reflexivity.
  - destruct (String.eqb (team y) (team t)) eqn:E.
    + apply String.eqb_eq in E. exfalso. apply Hnotin.
      rewrite E. apply in_map, Hin.
    + apply IH; assumption.
Qed.

(** X24: [selectLogoMap] maps a team code to the logo of the last record
    of the state with that code, and to nothing when there is none.  When
    the codes of the state are distinct, the map gives each record its
    own logo and [selectTeamFullName] its own name. *)
Theorem selectLogoMap_lookup (s : NFLStatsState) :
  (forall k,
      Map_get (selectLogoMap s) k
      = option_map logo
          (find (fun t => String.eqb (team t) k) (rev (defenseData s))))
  /\ (NoDup (map team (defenseData s)) ->
      forall t, In t (defenseData s) ->
        Map_get (selectLogoMap s) (team t) = Some (logo t)
        /\ selectTeamFullName (team t) s = Some (fullName t)).
Proof.
  assert (Hget : forall k,
             Map_get (selectLogoMap s) k
             = option_map logo
                 (find (fun t => String.eqb (team t) k) (rev (defenseData s)))).
  { intros k. unfold selectLogoMap, Map_from. rewrite Map_get_fold.
    rewrite <- map_rev.
    induction (rev (defenseData s)) as [|t l IH]; [reflexivity|].
    cbn [map find fst]. destruct (String.eqb (team t) k); [reflexivity | exact IH]. }
  split; [exact Hget|].
  intros Hnd t Hin. split.
  - rewrite Hget, find_unique_team; [reflexivity | | apply in_rev in Hin; exact Hin].
    rewrite map_rev. apply NoDup_rev, Hnd.
  - unfold selectTeamFullName. rewrite find_unique_team by assumption. reflexivity.
Qed.

Lemma selectLogoMap_lookup_witness :
  Map_get (selectLogoMap
             {| defenseData := [WAS; DAL; PHI]; loading := false; error := None;
                selectedMetric := KeySacks; team1 := "PHI"; team2 := "DAL" |})
          "DAL" = Some ""
  /\ selectTeamFullName "DAL"
       {| defenseData := [WAS; DAL; PHI]; loading := false; error := None;
          selectedMetric := KeySacks; team1 := "PHI"; team2 := "DAL" |}
     = Some "DAL".
Proof.
  refine (proj2 (selectLogoMap_lookup
                   {| defenseData := [WAS; DAL; PHI]; loading := false; error := None;
                      selectedMetric := KeySacks; team1 := "PHI"; team2 := "DAL" |})
                _ DAL _).
  - repeat constructor; simpl; intuition discriminate.
  - right. left. reflexivity.
Defined.

(** ** The radar comparison *)

Lemma Math_round_between (a b : Z) (x : number) :
  inject_Z a <= x <= inject_Z b ->
  inject_Z a <= Math_round x <= inject_Z b.
Proof.
  intros [Hlo Hhi]. unfold Math_round.
  assert (H0 : (Qfloor (inject_Z a + (1 # 2)) <= Qfloor (x + (1 # 2)))%Z)
    by (apply Qfloor_resp_le; lra).
  assert (H1 : (Qfloor (x + (1 # 2)) <= Qfloor (inject_Z b + (1 # 2)))%Z)
    by (apply Qfloor_resp_le; lra).
  rewrite Qfloor_half in H0, H1.
  split; rewrite <- Zle_Qle; assumption.
Qed.

Lemma radar_ratio_range (p mx : number) :
  0 <= p -> p <= mx ->
  0 <= (p / or_number mx 1) * 100 <= 100
  /\ 0 <= ((or_number mx 1 - p) / or_number mx 1) * 100 <= 100.
Proof.
  intros Hp Hmx. unfold or_number, truthy.
  destruct (Qeq_bool mx 0) eqn:E; cbn [negb].
  - apply Qeq_bool_eq in E.
    assert (E1 : p / 1 == p) by field.
    assert (E2 : (1 - p) / 1 == 1 - p) by field.
    rewrite E1, E2. split; split; lra.
  - apply Qeq_bool_neq in E.
    assert (Hpos : 0 < mx).
    { destruct (Qlt_le_dec 0 mx) as [H|H]; [exact H|].
      exfalso. apply E. lra. }
    assert (H1 : 0 <= p / mx) by (apply Qle_shift_div_l; lra).
    assert (H2 : p / mx <= 1) by (apply Qle_shift_div_r; lra).
    assert (E2 : (mx - p) / mx == 1 - p / mx) by (field; lra).
    rewrite E2. split; split; lra.
Qed.

Lemma radar_value_range (p mx : number) :
  0 <= p -> p <= mx ->
  0 <= Math_round ((p / or_number mx 1) * 100) <= 100
  /\ 0 <= Math_round (((or_number mx 1 - p) / or_number mx 1) * 100) <= 100.
Proof.
  intros Hp Hmx.
  destruct (radar_ratio_range p mx Hp Hmx) as [H1 H2].
  split.
  - apply (Math_round_between 0 100). exact H1.
  - apply (Math_round_between 0 100). exact H2.
Qed.

Lemma radarRow_get (stat team1 team2 key : string) (v1 v2 : number) :
  0 <= v1 <= 100 -> 0 <= v2 <= 100 ->
  key = team1 \/ key = team2 ->
  exists v, Map_get (radarRow stat team1 team2 v1 v2) key = Some (VNumber v)
            /\ 0 <= v <= 100.
Proof.
  intros H1 H2 Hkey. unfold radarRow. rewrite !Map_get_set.
  destruct (String.eqb "fullMark" key);
    [exists 100; split; [reflexivity | split; lra]|].
  destruct (String.eqb team2 key) eqn:E2;
    [exists v2; split; [reflexivity | exact H2]|].
  destruct Hkey as [-> | ->].
  - rewrite String.eqb_refl. exists v1. split; [reflexivity | exact H1].
  - rewrite String.eqb_refl in E2. discriminate.
Qed.

(** X25: [getRadarData] (and with it [selectRadarData]) returns no row
    when one of the two codes has no record, and five rows otherwise.
    When no metric of the data is negative, every row gives each of the
    two codes a number from 0 to 100. *)
Theorem getRadarData_rows (data : list TeamDefenseStats) (team1 team2 : string) :
  (find (fun t => String.eqb (team t) team1) data = None
   \/ find (fun t => String.eqb (team t) team2) data = None ->
   getRadarData data team1 team2 = [])
  /\ (forall t1 t2,
         find (fun t => String.eqb (team t) team1) data = Some t1 ->
         find (fun t => String.eqb (team t) team2) data = Some t2 ->
         List.length (getRadarData data team1 team2) = 5%nat)
  /\ ((forall t m, In t data -> 0 <= metric_value m t) ->
      forall row key,
        In row (getRadarData data team1 team2) ->
        key = team1 \/ key = team2 ->
        exists v, Map_get row key = Some (VNumber v) /\ 0 <= v <= 100).
Proof.
  unfold getRadarData.
  destruct (find (fun t => String.eqb (team t) team1) data) as [t1|] eqn:F1;
    [|split; [reflexivity | split; [discriminate | intros _ row key []]]].
  destruct (find (fun t => String.eqb (team t) team2) data) as [t2|] eqn:F2;
    [|split; [reflexivity | split; [discriminate | intros _ row key []]]].
  destruct data as [|d0 rest]; [discriminate|].
  split; [intros [H|H]; discriminate|].
  split; [reflexivity|].
  intros Hpos row key Hrow Hkey.
  apply find_some in F1 as [In1 _]. apply find_some in F2 as [In2 _].
  assert (Hb : forall m t, In t (d0 :: rest) ->
             0 <= metric_value m t
             /\ metric_value m t
                <= Math_max (metric_value m d0) (map (metric_value m) rest)).
  { intros m t Ht. split; [apply Hpos, Ht|].
    apply (minMax_bounds (metric_value m) d0 rest t Ht). }
  destruct Hrow as [<-|[<-|[<-|[<-|[<-|[]]]]]]; apply radarRow_get; try exact Hkey.
  - apply (radar_value_range _ _ (proj1 (Hb PointsAllowed t1 In1))
             (proj2 (Hb PointsAllowed t1 In1))).
  - apply (radar_value_range _ _ (proj1 (Hb PointsAllowed t2 In2))
             (proj2 (Hb PointsAllowed t2 In2))).
  - apply (radar_value_range _ _ (proj1 (Hb YardsAllowed t1 In1))
             (proj2 (Hb YardsAllowed t1 In1))).
  - apply (radar_value_range _ _ (proj1 (Hb YardsAllowed t2 In2))
             (proj2 (Hb YardsAllowed t2 In2))).
  - apply (radar_value_range _ _ (proj1 (Hb Sacks t1 In1))
             (proj2 (Hb Sacks t1 In1))).
  - apply (radar_value_range _ _ (proj1 (Hb Sacks t2 In2))
             (proj2 (Hb Sacks t2 In2))).
  - apply (radar_value_range _ _ (proj1 (Hb Interceptions t1 In1))
             (proj2 (Hb Interceptions t1 In1))).
  - apply (radar_value_range _ _ (proj1 (Hb Interceptions t2 In2))
             (proj2 (Hb Interceptions t2 In2))).
  - apply (radar_value_range _ _ (proj1 (Hb Fumbles t1 In1))
             (proj2 (Hb Fumbles t1 In1))).
  - apply (radar_value_range _ _ (proj1 (Hb Fumbles t2 In2))
             (proj2 (Hb Fumbles t2 In2))).
Qed.

Lemma getRadarData_rows_witness :
  getRadarData [PHI; DAL; WAS] "PHI" "NYG" = []
  /\ List.length (getRadarData [PHI; DAL; WAS] "PHI" "DAL") = 5%nat
  /\ exists v, Map_get (nth 2 (getRadarData [PHI; DAL; WAS] "PHI" "DAL") []) "DAL"
               = Some (VNumber v) /\ 0 <= v <= 100.
Proof.
  destruct (getRadarData_rows [PHI; DAL; WAS] "PHI" "NYG") as (Hnone & _ & _).
  destruct (getRadarData_rows [PHI; DAL; WAS] "PHI" "DAL") as (_ & Hfive & Hrange).
  split; [apply Hnone; right; reflexivity|].
  split; [apply (Hfive PHI DAL); reflexivity|].
  apply Hrange.
  - intros t m [<-|[<-|[<-|[]]]]; destruct m; vm_compute; discriminate.
  - right. right. left. reflexivity.
  - right. reflexivity.
Defined.

Example getRadarData_example :
  Map_get (nth 2 (getRadarData [PHI; DAL; WAS] "PHI" "DAL") []) "DAL"
  = Some (VNumber 90).
Proof. reflexivity. Qed.

(** * Properties of the scoreboard fallback of the service *)

Lemma existsb_eqb_In (a : string) (l : list string) :
  existsb (String.eqb a) l = true <-> In a l.
Proof.
  rewrite existsb_exists. split.
  - intros [x [Hx E]]. apply String.eqb_eq in E. subst. exact Hx.
  - intros H. exists a. split; [exact H | apply String.eqb_refl].
Qed.

Lemma seasonStats_invariant teamInfo (cs : list Competitor)
    (seen : list string) (teams : list TeamDefenseStats) :
  seen = map team teams -> NoDup seen ->
  Forall noStatistics teams ->
  fst (fold_left (seasonStatsStep teamInfo) cs (seen, teams))
  = map team (snd (fold_left (seasonStatsStep teamInfo) cs (seen, teams)))
  /\ NoDup (fst (fold_left (seasonStatsStep teamInfo) cs (seen, teams)))
  /\ Forall noStatistics
            (snd (fold_left (seasonStatsStep teamInfo) cs (seen, teams)))
  /\ (forall a,
        In a (fst (fold_left (seasonStatsStep teamInfo) cs (seen, teams)))
        <-> In a seen
            \/ In a (map (fun c => sb_abbreviation (competitor_team c)) cs)).
Proof.
  revert seen teams. induction cs as [|c cs IH]; intros seen teams Hseen Hnd Hzero.
  - cbn. split; [exact Hseen|]. split; [exact Hnd|]. split; [exact Hzero|].
    intros a. tauto.
  - cbn [fold_left].
    destruct (seasonStatsStep teamInfo (seen, teams) c) as [seen1 teams1] eqn:Estep.
    unfold seasonStatsStep in Estep.
    destruct (existsb (String.eqb (sb_abbreviation (competitor_team c))) seen) eqn:E;
      injection Estep as <- <-.
    + destruct (IH seen teams Hseen Hnd Hzero) as (H1 & H2 & H3 & H4).
      split; [exact H1|]. split; [exact H2|]. split; [exact H3|].
      intros a. rewrite H4. cbn [map In]. split; [tauto|].
      intros [Ha | [<- | Ha]]; [left; exact Ha | | right; exact Ha].
      left. apply existsb_eqb_In, E.
    + assert (Hnotin : ~ In (sb_abbreviation (competitor_team c)) seen).
      { intros Hin. apply existsb_eqb_In in Hin. congruence. }
      match goal with
      | |- context [fold_left _ cs (?s1, ?t1)] =>
          destruct (IH s1 t1) as (H1 & H2 & H3 & H4)
      end.
      * rewrite map_app, Hseen. reflexivity.
      * apply NoDup_rev in Hnd. rewrite <- (rev_involutive (seen ++ _)).
        apply NoDup_rev. rewrite rev_app_distr. cbn [rev app].
        constructor; [|exact Hnd].
        intros Hin. apply Hnotin. apply in_rev. exact Hin.
      * apply Forall_app. split; [exact Hzero|].
        constructor; [|constructor]. repeat split.
      * split; [exact H1|]. split; [exact H2|]. split; [exact H3|].
        intros a. rewrite H4, in_app_iff. cbn [map In]. tauto.
Qed.

(** X26: the records [fetchFromSeasonStats] builds from a scoreboard have
    distinct team codes: one record for each code that occurs among the
    competitors, however often it occurs, and no other, and each of the
    eight numeric fields of every record is 0. *)
Theorem seasonStatsTeams_unique (data : ScoreboardData) (teamInfo : JSMap TeamInfo) :
  NoDup (map team (seasonStatsTeams data teamInfo))
  /\ (forall a, In a (map team (seasonStatsTeams data teamInfo))
               <-> In a (map (fun c => sb_abbreviation (competitor_team c))
                             (scoreboardCompetitors data)))
  /\ Forall (fun t =>
               pointsAllowed t = 0 /\ yardsAllowed t = 0
               /\ passYardsAllowed t = 0 /\ rushYardsAllowed t = 0
               /\ sacks t = 0 /\ interceptions t = 0 /\ fumbles t = 0
               /\ dvoa t = 0)
            (seasonStatsTeams data teamInfo).
Proof.
  unfold seasonStatsTeams.
  destruct (seasonStats_invariant teamInfo (scoreboardCompetitors data) [] []
              eq_refl (NoDup_nil _) (Forall_nil _)) as (H1 & H2 & H3 & H4).
  rewrite <- H1. split; [exact H2|]. split; [|exact H3].
  intros a. rewrite H4. cbn [In]. tauto.
Qed.

Example seasonStatsTeams_example :
  let competitor code := {| competitor_team :=
                              {| sb_abbreviation := code; sb_displayName := code;
                                 sb_logo := None |} |} in
  let game a b := {| competitions :=
                       Some [ {| competitors := Some [competitor a; competitor b] |} ] |} in
  map team (seasonStatsTeams
              {| events := Some [game "PHI" "DAL"; game "WAS" "PHI"; game "DAL" "WAS"] |}
              [])
  = ["PHI"; "DAL"; "WAS"].
Proof. reflexivity. Qed.
